(** * micro:bit runtime core: the message bus and the fiber context switch

    A shallow embedding of

    - [MicroBitMessageBus] ([MicroBitListener], [send], [listen]), the
      ordered listener registry with its sequence number and the
      caller-held cache entry, and
    - [swap_context] / [save_context] of [CortexContextSwitch.s], the two
      Thumb routines that move a fiber's registers and the live part of the
      system stack into and out of a thread control block,

    together with the properties of both that the runtime relies on. *)

From stdpp Require Import base option list gmap.
From Stdlib Require Import ZArith Lia.

#[local] Open Scope Z_scope.

(** ** The processor and the context switch

    [CortexContextSwitch.s] is Thumb code for a Cortex-M0. The model keeps
    the thirteen general registers, SP and LR, the Z flag (the only flag the
    code tests), the address control passes to when a routine returns, and a
    memory of 32-bit words, one at every word-aligned address. A word access
    at an address that is not word-aligned faults and has no result. *)

Inductive reg :=
  | R0 | R1 | R2 | R3 | R4 | R5 | R6 | R7 | R8 | R9 | R10 | R11 | R12 | SP | LR.

Definition reg_index (r : reg) : nat :=
  match r with
  | R0 => 0 | R1 => 1 | R2 => 2 | R3 => 3 | R4 => 4 | R5 => 5 | R6 => 6 | R7 => 7
  | R8 => 8 | R9 => 9 | R10 => 10 | R11 => 11 | R12 => 12 | SP => 13 | LR => 14
  end%nat.

Definition reg_eqb (r1 r2 : reg) : bool := Nat.eqb (reg_index r1) (reg_index r2).

Record cpu := mkCpu {
  regs : reg → Z;
  flag_z : bool;
  mem : Z → Z;
  pc : Z
}.

(** 32-bit wrap-around. *)
Definition wrap (x : Z) : Z := x mod 2 ^ 32.

Definition set_reg (r : reg) (v : Z) (s : cpu) : cpu :=
  {| regs := λ r', if reg_eqb r' r then v else regs s r';
     flag_z := flag_z s; mem := mem s; pc := pc s |}.

Definition set_z (z : bool) (s : cpu) : cpu :=
  {| regs := regs s; flag_z := z; mem := mem s; pc := pc s |}.

Definition set_mem (a v : Z) (s : cpu) : cpu :=
  {| regs := regs s; flag_z := flag_z s;
     mem := λ a', if Z.eqb a' a then v else mem s a'; pc := pc s |}.

Definition set_pc (a : Z) (s : cpu) : cpu :=
  {| regs := regs s; flag_z := flag_z s; mem := mem s; pc := a |}.

(** An instruction, or a piece of code: a partial state transformer. *)
Definition instr := cpu → option cpu.

Definition then_ (i j : instr) : instr := λ s, s' ← i s; j s'.
Infix ">>" := then_ (at level 65, right associativity).

(** [STR Rt, [Rn, #imm]] *)
Definition STR (rt rn : reg) (imm : Z) : instr := λ s,
  let a := wrap (regs s rn + imm) in
  if Z.eqb (a mod 4) 0 then Some (set_mem a (regs s rt) s) else None.

(** [LDR Rt, [Rn, #imm]] *)
Definition LDR (rt rn : reg) (imm : Z) : instr := λ s,
  let a := wrap (regs s rn + imm) in
  if Z.eqb (a mod 4) 0 then Some (set_reg rt (mem s a) s) else None.

(** [MOV Rd, Rm] (no flags) *)
Definition MOV (rd rm : reg) : instr := λ s, Some (set_reg rd (regs s rm) s).

(** [MOVS Rd, #imm] *)
Definition MOVS (rd : reg) (imm : Z) : instr := λ s,
  Some (set_z (Z.eqb imm 0) (set_reg rd imm s)).

(** [LSLS Rd, #n] *)
Definition LSLS (rd : reg) (n : Z) : instr := λ s,
  let v := wrap (Z.shiftl (regs s rd) n) in
  Some (set_z (Z.eqb v 0) (set_reg rd v s)).

(** [ORRS Rd, Rm] *)
Definition ORRS (rd rm : reg) : instr := λ s,
  let v := Z.lor (regs s rd) (regs s rm) in
  Some (set_z (Z.eqb v 0) (set_reg rd v s)).

(** [SUBS Rd, #imm] *)
Definition SUBS (rd : reg) (imm : Z) : instr := λ s,
  let v := wrap (regs s rd - imm) in
  Some (set_z (Z.eqb v 0) (set_reg rd v s)).

(** [CMP Rn, Rm] *)
Definition CMP (rn rm : reg) : instr := λ s,
  Some (set_z (Z.eqb (wrap (regs s rn - regs s rm)) 0) s).

(** [BNE label]: [target] is the code at the label; falls through when Z is set. *)
Definition BNE (target : instr) : instr := λ s,
  if flag_z s then Some s else target s.

(** [BX Rm]: the routine ends and control passes to the address in [Rm]. *)
Definition BX (rm : reg) : instr := λ s, Some (set_pc (regs s rm) s).

(** The instructions that open both routines: the registers go into the
    TCB at [R0], one word each, R0 to R12 at offsets 0 to 48, then SP at 52
    and LR at 56. *)
Definition store_registers : instr :=
  STR R0 R0 0 >>
  STR R1 R0 4 >>
  STR R2 R0 8 >>
  STR R3 R0 12 >>
  STR R4 R0 16 >>
  STR R5 R0 20 >>
  STR R6 R0 24 >>
  STR R7 R0 28 >>
  MOV R4 R8 >>
  STR R4 R0 32 >>
  MOV R4 R9 >>
  STR R4 R0 36 >>
  MOV R4 R10 >>
  STR R4 R0 40 >>
  MOV R4 R11 >>
  STR R4 R0 44 >>
  MOV R4 R12 >>
  STR R4 R0 48 >>
  MOV R6 SP >>
  STR R6 R0 52 >>
  MOV R4 LR >>
  STR R4 R0 56.

(** The top of the system stack is built in [r] and copied to [R4]:
    [MOVS r, #0x20; LSLS r, #24; MOVS R4, #0x40; LSLS R4, #8; ORRS r, R4; MOV R4, r]. *)
Definition load_stack_top (r : reg) : instr :=
  MOVS r 0x20 >>
  LSLS r 24 >>
  MOVS R4 0x40 >>
  LSLS R4 8 >>
  ORRS r R4 >>
  MOV R4 r.

(** The loop at [store_stack]; the fuel bounds the number of passes. *)
Fixpoint store_stack (fuel : nat) : instr :=
  match fuel with
  | O => λ _, None
  | S fuel' =>
    SUBS R4 4 >>
    SUBS R2 4 >>
    LDR R5 R4 0 >>
    STR R5 R2 0 >>
    CMP R4 R6 >>
    BNE (store_stack fuel')
  end.

(** The loop at [restore_stack]. *)
Fixpoint restore_stack (fuel : nat) : instr :=
  match fuel with
  | O => λ _, None
  | S fuel' =>
    SUBS R4 4 >>
    SUBS R3 4 >>
    LDR R5 R3 0 >>
    STR R5 R4 0 >>
    CMP R4 R6 >>
    BNE (restore_stack fuel')
  end.

(** The loop at [store_stack1]. *)
Fixpoint store_stack1 (fuel : nat) : instr :=
  match fuel with
  | O => λ _, None
  | S fuel' =>
    SUBS R4 4 >>
    SUBS R1 4 >>
    LDR R5 R4 0 >>
    STR R5 R1 0 >>
    CMP R4 R6 >>
    BNE (store_stack1 fuel')
  end.

(** [swap_context], first half: the running fiber goes out. *)
Definition swap_context_out (fuel : nat) : instr :=
  store_registers >>
  load_stack_top R7 >>
  store_stack fuel.

(** [swap_context], second half: the other fiber comes in. First LR and SP
    from its TCB at [R1], and the top of the stack back into [R4]. *)
Definition load_stack_registers : instr :=
  LDR R4 R1 56 >>
  MOV LR R4 >>
  LDR R6 R1 52 >>
  MOV SP R6 >>
  MOV R4 R7.

(** After the stack has been copied in: the general registers, [R1] last,
    and the return. *)
Definition load_registers : instr :=
  LDR R4 R1 48 >>
  MOV R12 R4 >>
  LDR R4 R1 44 >>
  MOV R11 R4 >>
  LDR R4 R1 40 >>
  MOV R10 R4 >>
  LDR R4 R1 36 >>
  MOV R9 R4 >>
  LDR R4 R1 32 >>
  MOV R8 R4 >>
  LDR R7 R1 28 >>
  LDR R6 R1 24 >>
  LDR R5 R1 20 >>
  LDR R4 R1 16 >>
  LDR R3 R1 12 >>
  LDR R2 R1 8 >>
  LDR R0 R1 0 >>
  LDR R1 R1 4 >>
  BX LR.

Definition swap_context_in (fuel : nat) : instr :=
  load_stack_registers >>
  restore_stack fuel >>
  load_registers.

(** [swap_context]: R0 and R1 point to the TCBs of the fiber going out and
    of the fiber coming in, R2 and R3 to the bases of their stack copies. *)
Definition swap_context (fuel : nat) : instr :=
  swap_context_out fuel >> swap_context_in fuel.

(** The end of [save_context]: the registers the routine has used get
    their values back from the TCB at [R0]. *)
Definition restore_scratch : instr :=
  LDR R7 R0 28 >>
  LDR R6 R0 24 >>
  LDR R5 R0 20 >>
  LDR R4 R0 16 >>
  BX LR.

(** [save_context]: R0 points to the TCB, R1 to the base of the stack copy. *)
Definition save_context (fuel : nat) : instr :=
  store_registers >>
  load_stack_top R5 >>
  store_stack1 fuel >>
  restore_scratch.

(** The common shape of the three copy loops: [R4] walks down the system
    stack from its top, [rb] walks down the stack copy, one word per pass
    ([out]: from the stack to the copy), until [R4] meets [R6]. *)
Definition copy_pass (rb : reg) (out : bool) : instr :=
  SUBS R4 4 >>
  SUBS rb 4 >>
  (if out then LDR R5 R4 0 >> STR R5 rb 0 else LDR R5 rb 0 >> STR R5 R4 0) >>
  CMP R4 R6.

Fixpoint copy_loop (rb : reg) (out : bool) (fuel : nat) : instr :=
  match fuel with
  | O => λ _, None
  | S fuel' => copy_pass rb out >> BNE (copy_loop rb out fuel')
  end.

(** The memory after [n] passes of a copy loop whose source and
    destination pointers start at [src] and [dst]. *)
Fixpoint copy_words (src dst : Z) (n : nat) (m : Z → Z) : Z → Z :=
  match n with
  | O => m
  | S n' =>
    copy_words (wrap (src - 4)) (wrap (dst - 4)) n'
      (λ a, if Z.eqb a (wrap (dst - 4)) then m (wrap (src - 4)) else m a)
  end.

(** The registers that point into a stack copy. *)
Definition buffer_reg (rb : reg) : Prop := rb = R1 ∨ rb = R2 ∨ rb = R3.

(** The address the code builds as the top of the system stack. *)
Definition STACK_TOP : Z := 0x20004000.

(** The offset of a register's slot in a TCB. *)
Definition slot (r : reg) : Z := 4 * Z.of_nat (reg_index r).

(** A fiber's context store: the address of its TCB (fifteen words) and
    the base of the buffer for its stack copy. The copy grows downwards from
    the base, as the stack does from [STACK_TOP]. *)
Record context := mkContext {
  tcb : Z;
  stack_base : Z
}.

(** Two regions, given by start and length in bytes, do not meet. *)
Definition apart (a1 l1 a2 l2 : Z) : Prop := a1 + l1 ≤ a2 ∨ a2 + l2 ≤ a1.

(** A context with room for [cap] words of stack: TCB and buffer are
    word-aligned, lie in the address space, and the TCB, the buffer and the
    top [cap] words of the system stack do not meet. *)
Definition context_ok (cap : Z) (c : context) : Prop :=
  0 ≤ tcb c ∧ tcb c + 60 ≤ 2 ^ 32 ∧ tcb c mod 4 = 0
  ∧ 4 * cap ≤ stack_base c ∧ stack_base c < 2 ^ 32 ∧ stack_base c mod 4 = 0
  ∧ 4 * cap ≤ STACK_TOP
  ∧ apart (tcb c) 60 (stack_base c - 4 * cap) (4 * cap)
  ∧ apart (tcb c) 60 (STACK_TOP - 4 * cap) (4 * cap)
  ∧ apart (stack_base c - 4 * cap) (4 * cap) (STACK_TOP - 4 * cap) (4 * cap).

(** The stores of two contexts do not meet. *)
Definition contexts_apart (cap : Z) (A B : context) : Prop :=
  apart (tcb A) 60 (tcb B) 60
  ∧ apart (tcb A) 60 (stack_base B - 4 * cap) (4 * cap)
  ∧ apart (stack_base A - 4 * cap) (4 * cap) (tcb B) 60
  ∧ apart (stack_base A - 4 * cap) (4 * cap) (stack_base B - 4 * cap) (4 * cap).

(** The argument registers of a call [swap_context(out, in)]. *)
Definition call_swap (outgoing incoming : context) (s : cpu) : cpu :=
  set_reg R0 (tcb outgoing) (set_reg R1 (tcb incoming)
    (set_reg R2 (stack_base outgoing) (set_reg R3 (stack_base incoming) s))).

(** Two contexts with room for eight words each, and a machine that calls
    [swap_context(A, B)] with nothing on the system stack: SP is at
    [STACK_TOP]. B's TCB holds a stack pointer one word below the top. So do
    the two words that lie 0x2000 bytes (the distance from A's stack copy to
    the top of the stack) above the SP slots of the two TCBs. *)
Definition ctxA : context := {| tcb := 0x20001000; stack_base := 0x20002000 |}.
Definition ctxB : context := {| tcb := 0x20001100; stack_base := 0x20003000 |}.

Definition empty_stack_state : cpu :=
  {| regs := λ r, match r with
                  | R0 => tcb ctxA
                  | R1 => tcb ctxB
                  | R2 => stack_base ctxA
                  | R3 => stack_base ctxB
                  | SP => STACK_TOP
                  | LR => 0x1234
                  | _ => 0
                  end;
     flag_z := false;
     mem := λ a, if Z.eqb a (tcb ctxB + 52) then STACK_TOP - 4
                 else if Z.eqb a 0x20003134 then STACK_TOP - 4
                 else if Z.eqb a 0x20003034 then STACK_TOP - 4
                 else 0;
     pc := 0 |}.

(** The same machine with two words on the stack, for the examples. *)
Definition two_word_state : cpu :=
  {| regs := λ r, match r with
                  | R0 => tcb ctxA
                  | R1 => tcb ctxB
                  | R2 => stack_base ctxA
                  | R3 => stack_base ctxB
                  | SP => STACK_TOP - 8
                  | LR => 0x1234
                  | r => 100 + Z.of_nat (reg_index r)
                  end;
     flag_z := false;
     mem := λ a, if Z.eqb a (tcb ctxB + 52) then STACK_TOP - 4
                 else if Z.eqb a (tcb ctxB + 56) then 0x5678
                 else if Z.eqb a (STACK_TOP - 4) then 11
                 else if Z.eqb a (STACK_TOP - 8) then 22
                 else if Z.eqb a (stack_base ctxB - 4) then 33
                 else 0;
     pc := 0 |}.

(** ** The message bus *)

(** A callback is a [void (×)(void)] function pointer: we keep the address. *)
Definition Handler := Z.

(** A [MicroBitListener *]: [NULL] or the address of a heap cell. *)
Definition ptr := option positive.
Abbreviation NULL := (@None positive).

(** [class MicroBitListener]. The C++ field names [id], [value], [cb], [next]
    carry the prefix [l_] here, because [value] and [seq] are field names of
    several of the classes below. *)
Record MicroBitListener := mkListener {
  l_id : Z;
  l_value : Z;
  l_cb : Handler;
  l_next : ptr
}.

(** [class MicroBitMessageBus]: the head of the chain and the sequence number. *)
Record MicroBitMessageBus := mkBus {
  bus_listeners : ptr;
  bus_seq : Z
}.

(** [struct MicroBitMessageBusCache]: fields [seq] and [ptr]. *)
Record MicroBitMessageBusCache := mkCache {
  c_seq : Z;
  c_ptr : ptr
}.

(** [class MicroBitEvent]: [send] reads [source] and [value] only. *)
Record MicroBitEvent := mkEvent {
  evt_source : Z;
  evt_value : Z
}.

(** The store of listeners allocated with [new]. *)
Abbreviation heap := (gmap positive MicroBitListener).

(** What the bus code can touch: the heap, the bus object, and the fibers
    requested from the scheduler ([create_fiber]), oldest first. *)
Record machine := mkMachine {
  m_heap : heap;
  m_bus : MicroBitMessageBus;
  m_fibers : list Handler
}.

(** [MicroBitListener::MicroBitListener(id, value, handler)]. *)
Definition new_MicroBitListener (id value : Z) (handler : Handler) : MicroBitListener :=
  {| l_id := id; l_value := value; l_cb := handler; l_next := NULL |}.

(** [MicroBitMessageBus::MicroBitMessageBus()]. *)
Definition new_MicroBitMessageBus : MicroBitMessageBus :=
  {| bus_listeners := NULL; bus_seq := 0 |}.

(** A device that has just constructed its bus. *)
Definition boot : machine :=
  {| m_heap := ∅; m_bus := new_MicroBitMessageBus; m_fibers := [] |}.

Definition set_next (n : MicroBitListener) (p : ptr) : MicroBitListener :=
  {| l_id := l_id n; l_value := l_value n; l_cb := l_cb n; l_next := p |}.

Section Bus.

(** The two sentinels are declared in [MicroBitMessageBus.h]; the
    development is parametric in their values. *)
Variable MICROBIT_BUS_ID_ANY : Z.
Variable MICROBIT_BUS_VALUE_ANY : Z.

(** *** [send]

    Every [while] loop is a function on a fuel argument that bounds the
    number of times its condition is evaluated; dereferencing an address
    that holds no listener has no defined result. *)

(** [while (l != NULL && l->id != evt->source) l = l->next;] *)
Fixpoint send_find (fuel : nat) (h : heap) (l : ptr) (source : Z) : option ptr :=
  match fuel with
  | O => None
  | S fuel' =>
    match l with
    | None => Some NULL
    | Some a =>
      n ← h !! a;
      if bool_decide (l_id n ≠ source)
      then send_find fuel' h (l_next n) source
      else Some l
    end
  end.

(** [while (l != NULL && l->id == evt->source)
       { if (l->value == MICROBIT_BUS_VALUE_ANY || l->value == evt->value)
           create_fiber(l->cb);
         l = l->next; }] *)
Fixpoint send_sublist (fuel : nat) (h : heap) (l : ptr) (evt : MicroBitEvent)
    (fibers : list Handler) : option (list Handler) :=
  match fuel with
  | O => None
  | S fuel' =>
    match l with
    | None => Some fibers
    | Some a =>
      n ← h !! a;
      if bool_decide (l_id n = evt_source evt)
      then
        let fibers' :=
          if bool_decide (l_value n = MICROBIT_BUS_VALUE_ANY) || bool_decide (l_value n = evt_value evt)
          then fibers ++ [l_cb n]
          else fibers in
        send_sublist fuel' h (l_next n) evt fibers'
      else Some fibers
    end
  end.

(** [while (l != NULL && l->id == MICROBIT_BUS_ID_ANY)
       { create_fiber(l->cb); l = l->next; }] *)
Fixpoint send_any (fuel : nat) (h : heap) (l : ptr) (fibers : list Handler)
    : option (list Handler) :=
  match fuel with
  | O => None
  | S fuel' =>
    match l with
    | None => Some fibers
    | Some a =>
      n ← h !! a;
      if bool_decide (l_id n = MICROBIT_BUS_ID_ANY)
      then send_any fuel' h (l_next n) (fibers ++ [l_cb n])
      else Some fibers
    end
  end.

(** [c != NULL && c->seq == this->seq] *)
Definition cache_valid (b : MicroBitMessageBus) (c : option MicroBitMessageBusCache) : bool :=
  match c with
  | None => false
  | Some c => bool_decide (c_seq c = bus_seq b)
  end.

(** [void MicroBitMessageBus::send(MicroBitEvent *evt, MicroBitMessageBusCache *c)].
    The cache [c] belongs to the caller ([None] is a [NULL] argument); the
    result carries its value after the call. *)
Definition send (fuel : nat) (evt : MicroBitEvent) (c : option MicroBitMessageBusCache)
    (m : machine) : option (machine * option MicroBitMessageBusCache) :=
  let h := m_heap m in
  let b := m_bus m in
  l ← (if cache_valid b c
       then c' ← c; Some (c_ptr c')
       else send_find fuel h (bus_listeners b) (evt_source evt));
  let start := l in
  f1 ← send_sublist fuel h l evt (m_fibers m);
  f2 ← send_any fuel h (bus_listeners b) f1;
  let c' :=
    match c with
    | None => None
    | Some c0 =>
      if bool_decide (c_seq c0 ≠ bus_seq b)
      then Some {| c_seq := bus_seq b; c_ptr := start |}
      else Some c0
    end in
  Some ({| m_heap := h; m_bus := b; m_fibers := f2 |}, c').

(** [void MicroBitMessageBus::send(MicroBitEvent *evt)] *)
Definition send_nocache (fuel : nat) (evt : MicroBitEvent) (m : machine) : option machine :=
  r ← send fuel evt None m; Some r.1.

(** *** [listen] *)

(** The first loop of [listen]:
    [while (l != NULL && l->id <= id)
       { if (l->cb == handler && (l->id == id || l->id == MICROBIT_BUS_ID_ANY)
             && (l->value == value || l->value == MICROBIT_BUS_VALUE_ANY)) return;
         l = l->next; }]
    The result [true] stands for the early [return]. *)
Fixpoint listen_check (fuel : nat) (h : heap) (l : ptr) (id value : Z) (handler : Handler)
    : option bool :=
  match fuel with
  | O => None
  | S fuel' =>
    match l with
    | None => Some false
    | Some a =>
      n ← h !! a;
      if bool_decide (l_id n ≤ id)
      then
        if bool_decide (l_cb n = handler)
           && (bool_decide (l_id n = id) || bool_decide (l_id n = MICROBIT_BUS_ID_ANY))
           && (bool_decide (l_value n = value) || bool_decide (l_value n = MICROBIT_BUS_VALUE_ANY))
        then Some true
        else listen_check fuel' h (l_next n) id value handler
      else Some false
    end
  end.

(** The second loop of [listen]; the result is [p] when the loop ends:
    [while (l != NULL && l->id <= id && l->value <= value) { p = l; l = l->next; }] *)
Fixpoint listen_find (fuel : nat) (h : heap) (p l : ptr) (id value : Z) : option ptr :=
  match fuel with
  | O => None
  | S fuel' =>
    match l with
    | None => Some p
    | Some a =>
      n ← h !! a;
      if bool_decide (l_id n ≤ id) && bool_decide (l_value n ≤ value)
      then listen_find fuel' h l (l_next n) id value
      else Some p
    end
  end.

(** [void MicroBitMessageBus::listen(int id, int value, void ( *handler)(void))].
    [new] takes an address that holds no listener; the new listener is
    allocated before the first loop runs, so it exists (unreachable) also
    when the call returns early. *)
Definition listen (fuel : nat) (id value : Z) (handler : Handler) (m : machine)
    : option machine :=
  let newListener := fresh (dom (m_heap m)) in
  let h := <[newListener := new_MicroBitListener id value handler]> (m_heap m) in
  let b := m_bus m in
  captured ← listen_check fuel h (bus_listeners b) id value handler;
  if (captured : bool)
  then Some {| m_heap := h; m_bus := b; m_fibers := m_fibers m |}
  else
    p ← listen_find fuel h NULL (bus_listeners b) id value;
    match p with
    | None =>
      (* listeners = newListener; *)
      Some {| m_heap := h;
              m_bus := {| bus_listeners := Some newListener; bus_seq := bus_seq b + 1 |};
              m_fibers := m_fibers m |}
    | Some pa =>
      pn ← h !! pa;
      (* newListener->next = p->next; p->next = newListener; *)
      let h1 := <[newListener := set_next (new_MicroBitListener id value handler) (l_next pn)]> h in
      pn' ← h1 !! pa;
      let h2 := <[pa := set_next pn' (Some newListener)]> h1 in
      Some {| m_heap := h2;
              m_bus := {| bus_listeners := bus_listeners b; bus_seq := bus_seq b + 1 |};
              m_fibers := m_fibers m |}
    end.

(** A registration request, and a run of [listen] calls. *)
Definition registration := (Z * Z * Handler)%type.

Fixpoint listen_all (fuel : nat) (calls : list registration) (m : machine) : option machine :=
  match calls with
  | [] => Some m
  | (id, value, handler) :: calls' =>
    m' ← listen fuel id value handler m;
    listen_all fuel calls' m'
  end.

(** The listeners reachable from a pointer, as (id, value, cb) triples. *)
Definition key (n : MicroBitListener) : registration := (l_id n, l_value n, l_cb n).

Fixpoint registry_from (fuel : nat) (h : heap) (l : ptr) : option (list registration) :=
  match fuel with
  | O => None
  | S fuel' =>
    match l with
    | None => Some []
    | Some a => n ← h !! a; r ← registry_from fuel' h (l_next n); Some (key n :: r)
    end
  end.

Definition registry (fuel : nat) (m : machine) : option (list registration) :=
  registry_from fuel (m_heap m) (bus_listeners (m_bus m)).

(** *** Well-formed registries

    [cells h p cs]: following [next] from [p] in [h] visits exactly the
    cells [cs] (address and content) and ends at [NULL]. *)
Fixpoint cells (h : heap) (p : ptr) (cs : list (positive * MicroBitListener)) : Prop :=
  match cs with
  | [] => p = NULL
  | c :: cs' => p = Some c.1 ∧ h !! c.1 = Some c.2 ∧ cells h (l_next c.2) cs'
  end.

Definition keys (cs : list (positive * MicroBitListener)) : list registration :=
  map (λ c, key c.2) cs.

(** [chain h p ks]: the listeners reachable from [p] are [ks], in order. *)
Definition chain (h : heap) (p : ptr) (ks : list registration) : Prop :=
  ∃ cs, cells h p cs ∧ keys cs = ks.

Definition r_id (k : registration) : Z := k.1.1.
Definition r_value (k : registration) : Z := k.1.2.
Definition r_cb (k : registration) : Handler := k.2.

(** *** What the loops compute, on the list of reachable listeners *)

Fixpoint take_while {A} (f : A → bool) (l : list A) : list A :=
  match l with
  | [] => []
  | x :: l' => if f x then x :: take_while f l' else []
  end.

Fixpoint drop_while {A} (f : A → bool) (l : list A) : list A :=
  match l with
  | [] => []
  | x :: l' => if f x then drop_while f l' else l
  end.

(** The listeners for which the second loop of [send] requests a fiber
    when it starts at the chain [ks]. *)
Definition sublist_targets (evt : MicroBitEvent) (ks : list registration) : list registration :=
  filter (λ k, r_value k = MICROBIT_BUS_VALUE_ANY ∨ r_value k = evt_value evt)
         (take_while (λ k, bool_decide (r_id k = evt_source evt)) ks).

(** The listeners for which the third loop of [send] requests a fiber. *)
Definition any_targets (ks : list registration) : list registration :=
  take_while (λ k, bool_decide (r_id k = MICROBIT_BUS_ID_ANY)) ks.

(** The test inside the first loop of [listen]. *)
Definition captures (id value : Z) (handler : Handler) (k : registration) : bool :=
  bool_decide (r_cb k = handler)
  && (bool_decide (r_id k = id) || bool_decide (r_id k = MICROBIT_BUS_ID_ANY))
  && (bool_decide (r_value k = value) || bool_decide (r_value k = MICROBIT_BUS_VALUE_ANY)).

Definition captured (id value : Z) (handler : Handler) (ks : list registration) : bool :=
  existsb (captures id value handler) (take_while (λ k, bool_decide (r_id k ≤ id)) ks).

(** The condition of the second loop of [listen]. *)
Definition before (id value : Z) (k : registration) : bool :=
  bool_decide (r_id k ≤ id) && bool_decide (r_value k ≤ value).

(** The registry after [listen(id, value, handler)], as a list. *)
Definition listen_registry (id value : Z) (handler : Handler) (ks : list registration)
    : list registration :=
  if captured id value handler ks then ks
  else
    match take_while (before id value) ks with
    | [] => [(id, value, handler)]
    | pre => pre ++ (id, value, handler) :: drop_while (before id value) ks
    end.

(** The pointer to the first cell of a chain ([NULL] for the empty one). *)
Definition first_ptr (cs : list (positive * MicroBitListener)) : ptr :=
  match cs with
  | [] => NULL
  | c :: _ => Some c.1
  end.

(** The pointer to the last cell of a chain, [p] for the empty one. *)
Definition last_ptr (p : ptr) (cs : list (positive * MicroBitListener)) : ptr :=
  match last cs with
  | None => p
  | Some c => Some c.1
  end.

(** The order the chain is meant to have: ascending [id], and ascending
    [value] among equal [id]s. *)
Definition key_le (k1 k2 : registration) : bool :=
  bool_decide (r_id k1 < r_id k2)
  || (bool_decide (r_id k1 = r_id k2) && bool_decide (r_value k1 ≤ r_value k2)).

Fixpoint sorted_registry (ks : list registration) : bool :=
  match ks with
  | [] => true
  | k1 :: ks' =>
    match ks' with
    | [] => true
    | k2 :: _ => key_le k1 k2 && sorted_registry ks'
    end
  end.

(** Three handlers, for the examples. *)
Definition cbA : Handler := 101.
Definition cbB : Handler := 102.
Definition cbC : Handler := 103.

(** A registry written directly into the heap: cell [i] of the list lies
    at address [a + i] and points to the next one. *)
Fixpoint store_chain (a : positive) (ks : list registration) (h : heap) : heap :=
  match ks with
  | [] => h
  | (id, value, handler) :: ks' =>
    let next := match ks' with [] => NULL | _ => Some (a + 1)%positive end in
    <[a := {| l_id := id; l_value := value; l_cb := handler; l_next := next |}]>
      (store_chain (a + 1) ks' h)
  end.

Definition machine_with (ks : list registration) : machine :=
  {| m_heap := store_chain 1 ks ∅;
     m_bus := {| bus_listeners := match ks with [] => NULL | _ => Some 1%positive end;
                 bus_seq := Z.of_nat (length ks) |};
     m_fibers := [] |}.

(** ** Properties of the message bus *)

(** *** Lists *)

Lemma take_drop_while {A} (f : A → bool) (l : list A) :
  take_while f l ++ drop_while f l = l.
Proof. induction l as [|x l IH]; simpl; [done|]. destruct (f x); simpl; by rewrite ?IH. Qed.

Lemma take_while_map {A B} (g : A → B) (f : B → bool) (l : list A) :
  take_while f (map g l) = map g (take_while (λ x, f (g x)) l).
Proof. induction l as [|x l IH]; simpl; [done|]. destruct (f (g x)); simpl; by rewrite ?IH. Qed.

Lemma drop_while_map {A B} (g : A → B) (f : B → bool) (l : list A) :
  drop_while f (map g l) = map g (drop_while (λ x, f (g x)) l).
Proof. induction l as [|x l IH]; simpl; [done|]. destruct (f (g x)); simpl; by rewrite ?IH. Qed.

Lemma take_while_Forall {A} (f : A → bool) (l : list A) :
  Forall (λ x, f x = true) (take_while f l).
Proof.
  induction l as [|x l IH]; simpl; [constructor|].
  destruct (f x) eqn:E; constructor; done.
Qed.

Lemma take_while_prefix {A} (f : A → bool) (l : list A) : take_while f l `prefix_of` l.
Proof. exists (drop_while f l). by rewrite take_drop_while. Qed.

Lemma drop_while_length {A} (f : A → bool) (l : list A) :
  (length (drop_while f l) ≤ length l)%nat.
Proof. induction l as [|x l IH]; simpl; [lia|]. destruct (f x); simpl; lia. Qed.

(** *** Chains of cells *)

Lemma cells_functional h p cs1 cs2 : cells h p cs1 → cells h p cs2 → cs1 = cs2.
Proof.
  revert p cs2. induction cs1 as [|[a n] cs1 IH]; intros p [|[a' n'] cs2]; simpl.
  - done.
  - intros -> [? _]. done.
  - intros [-> _] ?. done.
  - intros (-> & Ha & Hc) (Heq & Ha' & Hc'). simplify_eq.
    f_equal. eauto.
Qed.

Lemma cells_app_inv h p cs1 cs2 :
  cells h p (cs1 ++ cs2) → ∃ q, cells h q cs2.
Proof.
  revert p. induction cs1 as [|c cs1 IH]; intros p; simpl; [eauto|].
  intros (_ & _ & Hc). eauto.
Qed.

(** A chain that ends at [NULL] visits no address twice. *)
Lemma cells_NoDup h p cs : cells h p cs → NoDup cs.*1.
Proof.
  revert p. induction cs as [|[a n] cs IH]; intros p; simpl; [constructor|].
  intros (-> & Ha & Hc). constructor; [|by eauto].
  intros Hin. apply list_elem_of_fmap in Hin as ([a' n'] & Heq & Hin). simpl in Heq. subst a'.
  apply list_elem_of_split in Hin as (c1 & c2 & ->).
  assert (Hfull : cells h (Some a) ((a, n) :: c1 ++ (a, n') :: c2)) by (simpl; done).
  destruct (cells_app_inv _ _ _ _ Hc) as (q & Hq).
  pose proof Hq as Hq'. simpl in Hq'. destruct Hq' as (-> & _ & _).
  pose proof (cells_functional _ _ _ _ Hfull Hq) as Heq.
  apply (f_equal length) in Heq. simpl in Heq. rewrite length_app in Heq. simpl in Heq. lia.
Qed.

(** Writing a cell that the chain does not visit leaves the chain as it is. *)
Lemma cells_insert_notin h p cs a n :
  cells h p cs → a ∉ cs.*1 → cells (<[a:=n]> h) p cs.
Proof.
  revert p. induction cs as [|[a' n'] cs IH]; intros p; simpl; [done|].
  intros (-> & Ha & Hc) Hnotin. apply not_elem_of_cons in Hnotin as [Hne Hnotin].
  split; [done|]. split; [by rewrite lookup_insert_ne|]. by apply IH.
Qed.

Lemma cells_lookup h p cs a :
  cells h p cs → a ∈ cs.*1 → is_Some (h !! a).
Proof.
  revert p. induction cs as [|[a' n'] cs IH]; intros p; simpl.
  - intros _ Hin. by apply elem_of_nil in Hin.
  - intros (-> & Ha & Hc) Hin. apply elem_of_cons in Hin as [->|Hin]; eauto.
Qed.

(** [new] does not disturb the registry. *)
Lemma cells_insert_fresh h p cs a n :
  cells h p cs → h !! a = None → cells (<[a:=n]> h) p cs.
Proof.
  intros Hc Hnone. apply cells_insert_notin; [done|].
  intros Hin. destruct (cells_lookup _ _ _ _ Hc Hin) as [x Hx]. congruence.
Qed.

Lemma fresh_dom_None (h : heap) : h !! fresh (dom h) = None.
Proof. apply not_elem_of_dom. apply is_fresh. Qed.

(** *** The loops of [send] on a well-formed registry *)

Lemma send_find_cells fuel h l cs source :
  cells h l cs → (length cs < fuel)%nat →
  ∃ start, send_find fuel h l source = Some start
           ∧ cells h start (drop_while (λ c, bool_decide (l_id c.2 ≠ source)) cs).
Proof.
  revert l cs. induction fuel as [|fuel IH]; intros l cs Hc Hlen; [lia|].
  destruct cs as [|[a n] cs]; simpl in Hc.
  - subst l. exists NULL. done.
  - destruct Hc as (-> & Ha & Hc). simpl in *. rewrite Ha. simpl.
    destruct (bool_decide (l_id n ≠ source)).
    + apply IH; [done|lia].
    + exists (Some a). simpl. done.
Qed.

Lemma send_find_chain fuel h l ks source :
  chain h l ks → (length ks < fuel)%nat →
  ∃ start, send_find fuel h l source = Some start
           ∧ chain h start (drop_while (λ k, bool_decide (r_id k ≠ source)) ks).
Proof.
  intros (cs & Hc & <-) Hlen. unfold keys in Hlen. rewrite length_map in Hlen.
  destruct (send_find_cells fuel h l cs source Hc Hlen) as (start & Hs & Hc').
  exists start. split; [done|]. eexists. split; [exact Hc'|].
  unfold keys. by rewrite drop_while_map.
Qed.

Lemma send_sublist_cells fuel h l cs evt fibers :
  cells h l cs → (length cs < fuel)%nat →
  send_sublist fuel h l evt fibers
  = Some (fibers ++ map r_cb (sublist_targets evt (keys cs))).
Proof.
  revert l cs fibers. induction fuel as [|fuel IH]; intros l cs fibers Hc Hlen; [lia|].
  destruct cs as [|[a n] cs]; simpl in Hc.
  - subst l. simpl. by rewrite app_nil_r.
  - destruct Hc as (-> & Ha & Hc). simpl in *. rewrite Ha. simpl.
    unfold sublist_targets. simpl. unfold r_id at 1. simpl.
    destruct (bool_decide (l_id n = evt_source evt)); [|by rewrite app_nil_r].
    rewrite (IH _ cs) by (done || lia). f_equal.
    rewrite filter_cons. unfold r_value at 1 2. simpl.
    destruct (decide (l_value n = MICROBIT_BUS_VALUE_ANY ∨ l_value n = evt_value evt)) as [Hv|Hv].
    + assert (bool_decide (l_value n = MICROBIT_BUS_VALUE_ANY)
              || bool_decide (l_value n = evt_value evt) = true) as ->.
      { destruct Hv as [Hv|Hv]; rewrite (bool_decide_eq_true_2 _ Hv); [done|apply orb_true_r]. }
      simpl. by rewrite <- app_assoc.
    + assert (bool_decide (l_value n = MICROBIT_BUS_VALUE_ANY)
              || bool_decide (l_value n = evt_value evt) = false) as ->.
      { apply orb_false_iff. split; apply bool_decide_eq_false_2; tauto. }
      done.
Qed.

Lemma send_any_cells fuel h l cs fibers :
  cells h l cs → (length cs < fuel)%nat →
  send_any fuel h l fibers = Some (fibers ++ map r_cb (any_targets (keys cs))).
Proof.
  revert l cs fibers. induction fuel as [|fuel IH]; intros l cs fibers Hc Hlen; [lia|].
  destruct cs as [|[a n] cs]; simpl in Hc.
  - subst l. simpl. by rewrite app_nil_r.
  - destruct Hc as (-> & Ha & Hc). simpl in *. rewrite Ha. simpl.
    unfold any_targets. simpl. unfold r_id at 1. simpl.
    destruct (bool_decide (l_id n = MICROBIT_BUS_ID_ANY)); [|by rewrite app_nil_r].
    rewrite (IH _ cs) by (done || lia). simpl. by rewrite <- app_assoc.
Qed.

(** *** The loops of [listen] on a well-formed registry *)

Lemma listen_check_cells fuel h l cs id value handler :
  cells h l cs → (length cs < fuel)%nat →
  listen_check fuel h l id value handler = Some (captured id value handler (keys cs)).
Proof.
  revert l cs. induction fuel as [|fuel IH]; intros l cs Hc Hlen; [lia|].
  destruct cs as [|[a n] cs]; simpl in Hc.
  - subst l. done.
  - destruct Hc as (-> & Ha & Hc). simpl in *. rewrite Ha. simpl.
    unfold captured. simpl. unfold r_id at 1. simpl.
    destruct (bool_decide (l_id n ≤ id)); [|done]. simpl.
    change (captures id value handler (key n)) with
      (bool_decide (l_cb n = handler)
       && (bool_decide (l_id n = id) || bool_decide (l_id n = MICROBIT_BUS_ID_ANY))
       && (bool_decide (l_value n = value) || bool_decide (l_value n = MICROBIT_BUS_VALUE_ANY))).
    destruct (bool_decide (l_cb n = handler)
       && (bool_decide (l_id n = id) || bool_decide (l_id n = MICROBIT_BUS_ID_ANY))
       && (bool_decide (l_value n = value) || bool_decide (l_value n = MICROBIT_BUS_VALUE_ANY)));
      [done|].
    simpl. apply IH; [done|lia].
Qed.

Lemma listen_find_cells fuel h p l cs id value :
  cells h l cs → (length cs < fuel)%nat →
  listen_find fuel h p l id value
  = Some (last_ptr p (take_while (λ c, before id value (key c.2)) cs)).
Proof.
  revert p l cs. induction fuel as [|fuel IH]; intros p l cs Hc Hlen; [lia|].
  destruct cs as [|[a n] cs]; simpl in Hc.
  - subst l. done.
  - destruct Hc as (-> & Ha & Hc). simpl in *. rewrite Ha. simpl.
    change (before id value (key n)) with
      (bool_decide (l_id n ≤ id) && bool_decide (l_value n ≤ value)).
    destruct (bool_decide (l_id n ≤ id) && bool_decide (l_value n ≤ value)); [|done].
    rewrite (IH _ _ cs) by (done || lia). f_equal.
    unfold last_ptr.
    destruct (take_while (λ c, before id value (key c.2)) cs) as [|c pre] eqn:E; [done|].
    rewrite last_cons_cons. destruct (last (c :: pre)) eqn:L; [done|].
    by apply last_None in L.
Qed.

(** Linking a new cell behind the cell at [pa]:
    [newListener->next = p->next; p->next = newListener;]. *)
Lemma cells_splice h p pre pa pn post a new :
  cells h p (pre ++ (pa, pn) :: post) →
  h !! a = None →
  cells (<[pa := set_next pn (Some a)]> (<[a := set_next new (l_next pn)]> h)) p
        (pre ++ (pa, set_next pn (Some a)) :: (a, set_next new (l_next pn)) :: post).
Proof.
  intros Hc Hfresh. revert p Hc. induction pre as [|[a0 n0] pre IH]; intros p Hc.
  - pose proof (cells_NoDup _ _ _ Hc) as Hnd. simpl in *.
    destruct Hc as (-> & Hpa & Hc).
    assert (pa ≠ a) by congruence.
    apply NoDup_cons in Hnd as [Hpost _].
    split; [done|]. split; [by rewrite lookup_insert_eq|]. simpl.
    split; [done|]. split; [by rewrite lookup_insert_ne, lookup_insert_eq|]. simpl.
    apply cells_insert_notin; [|done]. by apply cells_insert_fresh.
  - pose proof (cells_NoDup _ _ _ Hc) as Hnd. simpl in *.
    destruct Hc as (-> & Ha0 & Hc).
    apply NoDup_cons in Hnd as [Hnotin _].
    assert (a0 ≠ a) by congruence.
    assert (a0 ≠ pa).
    { intros ->. apply Hnotin. rewrite fmap_app. apply elem_of_app. right. simpl. left. }
    split; [done|]. split; [by rewrite !lookup_insert_ne|]. by apply IH.
Qed.

Lemma cells_lookup_elem h p cs a n :
  cells h p cs → (a, n) ∈ cs → h !! a = Some n.
Proof.
  revert p. induction cs as [|[a' n'] cs IH]; intros p; simpl.
  - intros _ Hin. by apply elem_of_nil in Hin.
  - intros (-> & Ha & Hc) Hin. apply elem_of_cons in Hin as [Heq|Hin]; [congruence|eauto].
Qed.

Lemma keys_app cs1 cs2 : keys (cs1 ++ cs2) = keys cs1 ++ keys cs2.
Proof. unfold keys. apply map_app. Qed.

Lemma keys_length cs : length (keys cs) = length cs.
Proof. unfold keys. apply length_map. Qed.

(** *** [listen] on a well-formed registry

    The call returns; the registry afterwards is [listen_registry] of the
    registry before; the sequence number moves by one exactly when the call
    does not return early. *)
Lemma listen_cells fuel id value handler m cs :
  cells (m_heap m) (bus_listeners (m_bus m)) cs → (length cs < fuel)%nat →
  ∃ m' cs', listen fuel id value handler m = Some m'
    ∧ cells (m_heap m') (bus_listeners (m_bus m')) cs'
    ∧ keys cs' = listen_registry id value handler (keys cs)
    ∧ m_fibers m' = m_fibers m
    ∧ (if captured id value handler (keys cs)
       then m_bus m' = m_bus m ∧ cs' = cs
       else bus_seq (m_bus m') = bus_seq (m_bus m) + 1).
Proof.
  intros Hc Hlen.
  pose proof (fresh_dom_None (m_heap m)) as Hfresh.
  set (a := fresh (dom (m_heap m))) in *.
  set (new := new_MicroBitListener id value handler).
  assert (Hc' : cells (<[a:=new]> (m_heap m)) (bus_listeners (m_bus m)) cs)
    by (by apply cells_insert_fresh).
  unfold listen. fold a. fold new.
  rewrite (listen_check_cells _ _ _ cs) by done. simpl.
  unfold listen_registry.
  destruct (captured id value handler (keys cs)) eqn:Hcap.
  { eexists _, cs. simpl. done. }
  rewrite (listen_find_cells _ _ _ _ cs) by done. simpl.
  unfold keys at 2 3. rewrite take_while_map, drop_while_map.
  pose proof (take_drop_while (λ c, before id value (key c.2)) cs) as Hsplit.
  set (pre := take_while (λ c, before id value (key c.2)) cs) in *.
  set (post := drop_while (λ c, before id value (key c.2)) cs) in *.
  unfold last_ptr. destruct (last pre) as [[pa pn]|] eqn:L.
  - apply last_Some in L as [pre' Hpre]. simpl.
    assert (Hin : (pa, pn) ∈ cs).
    { rewrite <- Hsplit, Hpre. apply elem_of_app. left. apply elem_of_app. right. left. }
    pose proof (cells_lookup_elem _ _ _ _ _ Hc Hin) as Hpa0.
    assert (pa ≠ a) by congruence.
    rewrite lookup_insert_ne by done. rewrite Hpa0. simpl.
    rewrite insert_insert_eq.
    rewrite lookup_insert_ne by done. rewrite Hpa0. simpl.
    eexists _, (pre' ++ (pa, set_next pn (Some a)) :: (a, set_next new (l_next pn)) :: post).
    split; [done|]. simpl. split.
    { apply cells_splice; [|done]. rewrite <- Hsplit, Hpre, <- app_assoc in Hc. exact Hc. }
    split; [|done].
    rewrite Hpre, keys_app. unfold keys. rewrite map_app. simpl.
    destruct (map (λ c, key c.2) pre') as [|k ks] eqn:E; simpl; [done|].
    by rewrite <- app_assoc.
  - apply last_None in L. rewrite L. simpl.
    eexists _, [(a, new)]. split; [done|]. simpl.
    split; [by rewrite lookup_insert_eq|]. done.
Qed.

(** *** [send] on a well-formed registry *)

Lemma send_cells fuel evt c m cs ccs :
  cells (m_heap m) (bus_listeners (m_bus m)) cs → (length cs < fuel)%nat →
  (c_seq c = bus_seq (m_bus m) →
   cells (m_heap m) (c_ptr c) ccs ∧ (length ccs < fuel)%nat) →
  let found := drop_while (λ x, bool_decide (l_id x.2 ≠ evt_source evt)) cs in
  send fuel evt (Some c) m =
    if bool_decide (c_seq c = bus_seq (m_bus m))
    then Some ({| m_heap := m_heap m; m_bus := m_bus m;
                  m_fibers := m_fibers m ++ map r_cb (sublist_targets evt (keys ccs))
                                         ++ map r_cb (any_targets (keys cs)) |},
               Some c)
    else Some ({| m_heap := m_heap m; m_bus := m_bus m;
                  m_fibers := m_fibers m ++ map r_cb (sublist_targets evt (keys found))
                                         ++ map r_cb (any_targets (keys cs)) |},
               Some {| c_seq := bus_seq (m_bus m); c_ptr := first_ptr found |}).
Proof.
  intros Hc Hlen Hvalid found. unfold send, cache_valid.
  destruct (bool_decide (c_seq c = bus_seq (m_bus m))) eqn:Hv.
  - apply bool_decide_eq_true in Hv. destruct (Hvalid Hv) as [Hcc Hclen]. simpl.
    rewrite (send_sublist_cells _ _ _ ccs) by done. simpl.
    rewrite (send_any_cells _ _ _ cs) by done. simpl.
    rewrite (bool_decide_eq_false_2 (c_seq c ≠ bus_seq (m_bus m))) by tauto.
    by rewrite <- app_assoc.
  - apply bool_decide_eq_false in Hv.
    destruct (send_find_cells fuel _ _ cs (evt_source evt) Hc Hlen) as (start & -> & Hs).
    simpl. fold found in Hs.
    assert (length found ≤ length cs)%nat by apply drop_while_length.
    rewrite (send_sublist_cells _ _ _ found) by (done || lia). simpl.
    rewrite (send_any_cells _ _ _ cs) by done. simpl.
    rewrite (bool_decide_eq_true_2 (c_seq c ≠ bus_seq (m_bus m))) by done.
    rewrite <- app_assoc. do 4 f_equal.
    destruct found as [|x found']; simpl in *; [done|]. tauto.
Qed.

Lemma send_nocache_cells fuel evt m cs :
  cells (m_heap m) (bus_listeners (m_bus m)) cs → (length cs < fuel)%nat →
  let found := drop_while (λ x, bool_decide (l_id x.2 ≠ evt_source evt)) cs in
  send_nocache fuel evt m =
    Some {| m_heap := m_heap m; m_bus := m_bus m;
            m_fibers := m_fibers m ++ map r_cb (sublist_targets evt (keys found))
                                   ++ map r_cb (any_targets (keys cs)) |}.
Proof.
  intros Hc Hlen found. unfold send_nocache, send. simpl.
  destruct (send_find_cells fuel _ _ cs (evt_source evt) Hc Hlen) as (start & -> & Hs).
  simpl. fold found in Hs.
  assert (length found ≤ length cs)%nat by apply drop_while_length.
  rewrite (send_sublist_cells _ _ _ found) by (done || lia). simpl.
  rewrite (send_any_cells _ _ _ cs) by done. simpl.
  by rewrite <- app_assoc.
Qed.

(** *** The cache entry *)

(** C5. On a well-formed registry, [send] with a cache entry [c] uses
    [c->ptr] exactly when [c->seq] equals the bus's sequence number, and
    then leaves [c] alone. Otherwise it scans from the head of the chain for
    the first listener of the event's source, dispatches from there, and
    leaves in [c] that listener's address together with the current sequence
    number. In particular an entry taken at sequence number [V] and used
    after one inserting [listen] is not followed: the send rescans and the
    entry ends with sequence number [V + 1]. *)
Theorem send_cache_protocol fuel evt m cs :
  cells (m_heap m) (bus_listeners (m_bus m)) cs → (S (length cs) < fuel)%nat →
  (∀ c ccs,
     (c_seq c = bus_seq (m_bus m) →
      cells (m_heap m) (c_ptr c) ccs ∧ (length ccs < fuel)%nat) →
     let found := drop_while (λ x, bool_decide (l_id x.2 ≠ evt_source evt)) cs in
     send fuel evt (Some c) m =
       if bool_decide (c_seq c = bus_seq (m_bus m))
       then Some ({| m_heap := m_heap m; m_bus := m_bus m;
                     m_fibers := m_fibers m ++ map r_cb (sublist_targets evt (keys ccs))
                                            ++ map r_cb (any_targets (keys cs)) |},
                  Some c)
       else Some ({| m_heap := m_heap m; m_bus := m_bus m;
                     m_fibers := m_fibers m ++ map r_cb (sublist_targets evt (keys found))
                                            ++ map r_cb (any_targets (keys cs)) |},
                  Some {| c_seq := bus_seq (m_bus m); c_ptr := first_ptr found |}))
  ∧ (∀ c id value handler,
       c_seq c = bus_seq (m_bus m) →
       captured id value handler (keys cs) = false →
       ∃ m' cs',
         listen fuel id value handler m = Some m'
         ∧ cells (m_heap m') (bus_listeners (m_bus m')) cs'
         ∧ bus_seq (m_bus m') = c_seq c + 1
         ∧ let found := drop_while (λ x, bool_decide (l_id x.2 ≠ evt_source evt)) cs' in
           send fuel evt (Some c) m' =
             Some ({| m_heap := m_heap m'; m_bus := m_bus m';
                      m_fibers := m_fibers m' ++ map r_cb (sublist_targets evt (keys found))
                                              ++ map r_cb (any_targets (keys cs')) |},
                   Some {| c_seq := c_seq c + 1; c_ptr := first_ptr found |})).
Proof.
  intros Hc Hlen. split.
  - intros c ccs Hvalid. apply send_cells; [done|lia|done].
  - intros c id value handler Hseq Hcap.
    destruct (listen_cells fuel id value handler m cs Hc ltac:(lia))
      as (m' & cs' & Hl & Hc' & Hk & _ & Hs).
    rewrite Hcap in Hs. exists m', cs'. split; [done|]. split; [done|].
    split; [lia|]. intros found.
    assert (length cs' < fuel)%nat as Hlen'.
    { apply (f_equal length) in Hk. rewrite keys_length in Hk.
      rewrite Hk. unfold listen_registry. rewrite Hcap.
      pose proof (take_drop_while (before id value) (keys cs)) as Hsplit.
      apply (f_equal length) in Hsplit. rewrite length_app, keys_length in Hsplit.
      destruct (take_while (before id value) (keys cs)); simpl in *; [lia|].
      rewrite length_app. simpl. lia. }
    rewrite (send_cells fuel evt c m' cs' []) by (done || lia).
    rewrite bool_decide_eq_false_2 by lia. fold found. by rewrite Hs, Hseq.
Qed.

(** C10. A cache entry with the current sequence number is followed without
    a look at the listener it points to: when that listener's [id] is not
    the event's source, the walk over the listeners of the source ends at
    once, and the only fibers requested are those of the walk over the
    leading listeners with the any-source [id], whatever listeners of the
    event's source the registry holds. *)
Theorem send_valid_cache_skips_source fuel evt c m cs a n :
  cells (m_heap m) (bus_listeners (m_bus m)) cs → (length cs < fuel)%nat →
  c_seq c = bus_seq (m_bus m) →
  c_ptr c = Some a → m_heap m !! a = Some n → l_id n ≠ evt_source evt →
  send fuel evt (Some c) m =
    Some ({| m_heap := m_heap m; m_bus := m_bus m;
             m_fibers := m_fibers m ++ map r_cb (any_targets (keys cs)) |}, Some c)
  ∧ Forall (λ k, r_id k = MICROBIT_BUS_ID_ANY) (any_targets (keys cs))
  ∧ any_targets (keys cs) `prefix_of` keys cs.
Proof.
  intros Hc Hlen Hseq Hptr Ha Hid. split; [|split].
  - unfold send, cache_valid. rewrite (bool_decide_eq_true_2 _ Hseq). simpl.
    rewrite Hptr.
    assert (send_sublist fuel (m_heap m) (Some a) evt (m_fibers m) = Some (m_fibers m)) as ->.
    { destruct fuel as [|fuel]; [lia|]. simpl. rewrite Ha. simpl.
      by rewrite (bool_decide_eq_false_2 _ Hid). }
    simpl. rewrite (send_any_cells _ _ _ cs) by done. simpl.
    by rewrite (bool_decide_eq_false_2 (c_seq c ≠ bus_seq (m_bus m))) by tauto.
  - unfold any_targets.
    eapply Forall_impl; [apply take_while_Forall|].
    intros k Hk. by apply bool_decide_eq_true in Hk.
  - apply take_while_prefix.
Qed.

(** *** The sequence number *)


(** *** Where the code departs from its description *)

(** C1. The third loop of [send] requests a fiber for every leading
    listener with the any-source [id] and never looks at its [value]. On a
    new bus with the one registration (ANY, 7, cbC), the event (5, 9) starts
    cbC although cbC listens for value 7. With (ANY, 7, cbC), (5, ANY, cbB)
    and (5, 7, cbA) in the registry, the event (5, 9) starts cbB and then
    cbC. *)
Theorem send_any_source_ignores_value :
  MICROBIT_BUS_ID_ANY ≠ 5 → MICROBIT_BUS_VALUE_ANY ≠ 7 → MICROBIT_BUS_VALUE_ANY ≠ 9 →
  (m ← listen 4 MICROBIT_BUS_ID_ANY 7 cbC boot;
   m_fibers <$> send_nocache 4 {| evt_source := 5; evt_value := 9 |} m) = Some [cbC]
  ∧ let m := machine_with [(MICROBIT_BUS_ID_ANY, 7, cbC);
                           (5, MICROBIT_BUS_VALUE_ANY, cbB);
                           (5, 7, cbA)] in
    registry 4 m
    = Some [(MICROBIT_BUS_ID_ANY, 7, cbC); (5, MICROBIT_BUS_VALUE_ANY, cbB); (5, 7, cbA)]
    ∧ m_fibers <$> send_nocache 4 {| evt_source := 5; evt_value := 9 |} m = Some [cbB; cbC].
Proof.
  intros Hid Hv7 Hv9.
  assert (Hany : bool_decide (MICROBIT_BUS_ID_ANY = MICROBIT_BUS_ID_ANY) = true)
    by (by apply bool_decide_eq_true_2).
  assert (Hsrc : bool_decide (MICROBIT_BUS_ID_ANY ≠ 5) = true)
    by (by apply bool_decide_eq_true_2).
  split.
  - assert (listen 4 MICROBIT_BUS_ID_ANY 7 cbC boot
            = Some {| m_heap := {[ 1%positive := mkListener MICROBIT_BUS_ID_ANY 7 cbC NULL ]};
                      m_bus := {| bus_listeners := Some 1%positive; bus_seq := 1 |};
                      m_fibers := [] |}) as -> by (vm_compute; reflexivity).
    simpl.
    rewrite (send_nocache_cells 4 _ _ [(1%positive, mkListener MICROBIT_BUS_ID_ANY 7 cbC NULL)])
      by (simpl; (lia || tauto)).
    unfold sublist_targets, any_targets, r_id, r_value. simpl.
    rewrite Hsrc. simpl. rewrite Hany. done.
  - intros m. split; [done|].
    set (cs := [(1%positive, mkListener MICROBIT_BUS_ID_ANY 7 cbC (Some 2%positive));
                (2%positive, mkListener 5 MICROBIT_BUS_VALUE_ANY cbB (Some 3%positive));
                (3%positive, mkListener 5 7 cbA NULL)]).
    assert (Hc : cells (m_heap m) (bus_listeners (m_bus m)) cs) by (vm_compute; tauto).
    rewrite (send_nocache_cells 4 _ m cs Hc) by (simpl; lia).
    unfold sublist_targets, any_targets, r_id, r_value. simpl.
    rewrite Hsrc. simpl. rewrite Hany.
    rewrite (bool_decide_eq_false_2 (5 = MICROBIT_BUS_ID_ANY)) by done.
    rewrite !filter_cons, filter_nil. simpl.
    destruct (decide (MICROBIT_BUS_VALUE_ANY = MICROBIT_BUS_VALUE_ANY
                      ∨ MICROBIT_BUS_VALUE_ANY = 9)); [|tauto].
    destruct (decide (7 = MICROBIT_BUS_VALUE_ANY ∨ 7 = 9)); [lia|]. done.
Qed.

(** C3. Three [listen] calls on a new bus leave the chain out of order:
    the second loop of [listen] stops at the first listener whose [value]
    is larger than the new one, whatever the [id]s are, so (3, 1) is linked
    in before (2, 2). *)
Theorem listen_breaks_order :
  (m ← listen_all 8 [(1, 1, cbA); (2, 2, cbB); (3, 1, cbC)] boot; registry 8 m)
  = Some [(1, 1, cbA); (3, 1, cbC); (2, 2, cbB)]
  ∧ sorted_registry [(1, 1, cbA); (3, 1, cbC); (2, 2, cbB)] = false.
Proof. split; vm_compute; reflexivity. Qed.

(** C4. On the chain of [listen_breaks_order] the first loop of [listen]
    stops at (3, 1) and does not reach the registered (2, 2, cbB): the same
    registration is linked in a second time and the sequence number moves. *)
Theorem listen_registers_twice :
  (m ← listen_all 8 [(1, 1, cbA); (2, 2, cbB); (3, 1, cbC)] boot;
   r ← registry 8 m; Some (r, bus_seq (m_bus m)))
  = Some ([(1, 1, cbA); (3, 1, cbC); (2, 2, cbB)], 3)
  ∧ (m ← listen_all 8 [(1, 1, cbA); (2, 2, cbB); (3, 1, cbC); (2, 2, cbB)] boot;
     r ← registry 8 m; Some (r, bus_seq (m_bus m)))
    = Some ([(1, 1, cbA); (2, 2, cbB); (3, 1, cbC); (2, 2, cbB)], 4).
Proof. split; vm_compute; reflexivity. Qed.

(** C6. When the second loop of [listen] stops at the head of a chain that
    is not empty, [listeners = newListener] replaces the head while the new
    listener's [next] is still [NULL]: the listeners registered before are
    no longer reachable. *)
Theorem listen_at_head_forgets_registry :
  (m ← listen_all 8 [(5, 7, cbA)] boot; registry 8 m) = Some [(5, 7, cbA)]
  ∧ (m ← listen_all 8 [(5, 7, cbA); (3, 1, cbB)] boot; registry 8 m) = Some [(3, 1, cbB)].
Proof. split; vm_compute; reflexivity. Qed.

(** C8. The same two registrations, made in the two possible orders, leave
    different registries. *)
Theorem listen_order_matters :
  (m ← listen_all 8 [(1, 1, cbA); (2, 2, cbB)] boot; registry 8 m)
  = Some [(1, 1, cbA); (2, 2, cbB)]
  ∧ (m ← listen_all 8 [(2, 2, cbB); (1, 1, cbA)] boot; registry 8 m)
    = Some [(1, 1, cbA)].
Proof. split; vm_compute; reflexivity. Qed.

End Bus.

(** *** The theorems at concrete registries, with both sentinels 0 *)

Lemma send_any_source_ignores_value_witness :
  (0 ≠ 5 ∧ 0 ≠ 7 ∧ 0 ≠ 9)
  ∧ (m ← listen 0 0 4 0 7 cbC boot;
     m_fibers <$> send_nocache 0 0 4 {| evt_source := 5; evt_value := 9 |} m) = Some [cbC]
  ∧ m_fibers <$> send_nocache 0 0 4 {| evt_source := 5; evt_value := 9 |}
                   (machine_with [(0, 7, cbC); (5, 0, cbB); (5, 7, cbA)])
    = Some [cbB; cbC].
Proof.
  split; [repeat split; discriminate|].
  destruct (send_any_source_ignores_value 0 0) as (H1 & _ & H2); [discriminate..|].
  split; [exact H1|exact H2].
Defined.

(** The two examples of idempotent registration: the same triple twice,
    and a triple behind an any-source, any-value registration of the same
    handler. *)
Lemma listen_idempotent_examples :
  (m ← listen_all 0 0 8 [(5, 7, cbA); (5, 7, cbA)] boot;
   r ← registry 8 m; Some (r, bus_seq (m_bus m))) = Some ([(5, 7, cbA)], 1)
  ∧ (m ← listen_all 0 0 8 [(0, 0, cbA); (5, 7, cbA)] boot;
     r ← registry 8 m; Some (r, bus_seq (m_bus m))) = Some ([(0, 0, cbA)], 1).
Proof. split; vm_compute; reflexivity. Qed.

Lemma send_cache_protocol_witness :
  let m := machine_with [(5, 7, cbA)] in
  let c := {| c_seq := 1; c_ptr := Some 1%positive |} in
  cells (m_heap m) (bus_listeners (m_bus m)) [(1%positive, mkListener 5 7 cbA NULL)]
  ∧ c_seq c = bus_seq (m_bus m)
  ∧ captured 0 0 6 8 cbB [(5, 7, cbA)] = false
  ∧ ∃ m', listen 0 0 4 6 8 cbB m = Some m'
          ∧ bus_seq (m_bus m') = 2
          ∧ snd <$> send 0 0 4 {| evt_source := 5; evt_value := 7 |} (Some c) m'
            = Some (Some {| c_seq := 2; c_ptr := Some 1%positive |}).
Proof.
  intros m c.
  assert (Hc : cells (m_heap m) (bus_listeners (m_bus m))
                 [(1%positive, mkListener 5 7 cbA NULL)]) by (vm_compute; tauto).
  split; [exact Hc|]. split; [reflexivity|]. split; [reflexivity|].
  destruct (send_cache_protocol 0 0 4 {| evt_source := 5; evt_value := 7 |} m _ Hc
              ltac:(simpl; lia)) as [_ Hb].
  destruct (Hb c 6 8 cbB eq_refl eq_refl) as (m' & cs' & Hl & Hc' & Hseq & Hsend).
  exists m'. split; [exact Hl|]. split; [exact Hseq|].
  vm_compute in Hl. injection Hl as <-. reflexivity.
Defined.

Lemma send_valid_cache_skips_source_witness :
  let m := machine_with [(0, 7, cbC); (5, 0, cbB); (5, 7, cbA)] in
  let c := {| c_seq := 3; c_ptr := Some 1%positive |} in
  (c_seq c = bus_seq (m_bus m)
   ∧ m_heap m !! 1%positive = Some (mkListener 0 7 cbC (Some 2%positive))
   ∧ 0 ≠ 5)
  ∧ registry 4 m = Some [(0, 7, cbC); (5, 0, cbB); (5, 7, cbA)]
  ∧ send 0 0 4 {| evt_source := 5; evt_value := 7 |} (Some c) m
    = Some ({| m_heap := m_heap m; m_bus := m_bus m; m_fibers := [cbC] |}, Some c).
Proof.
  intros m c. split; [repeat split; discriminate|]. split; [reflexivity|].
  apply (send_valid_cache_skips_source 0 0 4 {| evt_source := 5; evt_value := 7 |} c m
           [(1%positive, mkListener 0 7 cbC (Some 2%positive));
            (2%positive, mkListener 5 0 cbB (Some 3%positive));
            (3%positive, mkListener 5 7 cbA NULL)]
           1%positive (mkListener 0 7 cbC (Some 2%positive))).
  - vm_compute. tauto.
  - simpl. lia.
  - reflexivity.
  - reflexivity.
  - reflexivity.
  - discriminate.
Defined.


(** ** Properties of the context switch *)

(** *** Stepping through straight-line code *)

(** Reads of the state after a write. *)
Ltac sreg := cbn [regs mem flag_z pc set_reg set_mem set_z set_pc reg_eqb reg_index Nat.eqb].

(** 32-bit arithmetic. *)
Lemma wrap_small x : 0 ≤ x < 2 ^ 32 → wrap x = x.
Proof. intros H. unfold wrap. by apply Z.mod_small. Qed.

(** Sequencing. *)
Lemma then_Some (i j : instr) s s1 : i s = Some s1 → (i >> j) s = j s1.
Proof. intros H. unfold then_. by rewrite H. Qed.

(** A store or a load at an aligned address inside the address space. *)
Lemma STR_ok rt rn imm s :
  0 ≤ regs s rn + imm < 2 ^ 32 → (regs s rn + imm) mod 4 = 0 →
  STR rt rn imm s = Some (set_mem (regs s rn + imm) (regs s rt) s).
Proof.
  intros Hr Ha. unfold STR. rewrite (wrap_small _ Hr). simpl. rewrite Ha. done.
Qed.

Lemma LDR_ok rt rn imm s :
  0 ≤ regs s rn + imm < 2 ^ 32 → (regs s rn + imm) mod 4 = 0 →
  LDR rt rn imm s = Some (set_reg rt (mem s (regs s rn + imm)) s).
Proof.
  intros Hr Ha. unfold LDR. rewrite (wrap_small _ Hr). simpl. rewrite Ha. done.
Qed.

(** The side conditions of [STR_ok] and [LDR_ok]. *)
Ltac side := sreg; unfold wrap in *; first [ lia | Z.div_mod_to_equations; lia ].

(** Decides the address comparisons left by a read after several writes. *)
Ltac zeqb :=
  repeat match goal with
         | |- context [Z.eqb ?a ?b] =>
           first [ replace (Z.eqb a b) with true by (symmetry; apply Z.eqb_eq; lia)
                 | replace (Z.eqb a b) with false by (symmetry; apply Z.eqb_neq; lia) ];
           cbv iota
         end.


Lemma wrap_wrap_sub x y : wrap (wrap x - y) = wrap (x - y).
Proof. unfold wrap. apply Zminus_mod_idemp_l. Qed.

Lemma wrap_aligned x : x mod 4 = 0 → wrap x mod 4 = 0.
Proof. unfold wrap. intros H. Z.div_mod_to_equations. lia. Qed.

Lemma wrap_sub_zero x e : 0 ≤ e < 2 ^ 32 → wrap (wrap x - e) = 0 ↔ wrap x = e.
Proof. unfold wrap. intros H. split; intros H'; Z.div_mod_to_equations; lia. Qed.

(** The three loops are instances of [copy_loop]. *)
(** *** The three loops are instances of [copy_loop] *)

Lemma then_assoc (i j k : instr) s : ((i >> j) >> k) s = (i >> j >> k) s.
Proof. unfold then_. destruct (i s); simpl; [|done]. done. Qed.

Lemma store_stack_copy_loop fuel s : store_stack fuel s = copy_loop R2 true fuel s.
Proof.
  revert s. induction fuel as [|fuel IH]; intros s; [done|].
  simpl. unfold copy_pass, then_. simpl.
  destruct (LDR R5 R4 0 _); simpl; [|done].
  destruct (STR R5 R2 0 _); simpl; [|done].
  unfold BNE. destruct (flag_z _); [done|]. apply IH.
Qed.

Lemma store_stack1_copy_loop fuel s : store_stack1 fuel s = copy_loop R1 true fuel s.
Proof.
  revert s. induction fuel as [|fuel IH]; intros s; [done|].
  simpl. unfold copy_pass, then_. simpl.
  destruct (LDR R5 R4 0 _); simpl; [|done].
  destruct (STR R5 R1 0 _); simpl; [|done].
  unfold BNE. destruct (flag_z _); [done|]. apply IH.
Qed.

Lemma restore_stack_copy_loop fuel s : restore_stack fuel s = copy_loop R3 false fuel s.
Proof.
  revert s. induction fuel as [|fuel IH]; intros s; [done|].
  simpl. unfold copy_pass, then_. simpl.
  destruct (LDR R5 R3 0 _); simpl; [|done].
  destruct (STR R5 R4 0 _); simpl; [|done].
  unfold BNE. destruct (flag_z _); [done|]. apply IH.
Qed.

(** *** The copy loop *)

Lemma copy_words_ext src dst n m1 m2 :
  (∀ a, m1 a = m2 a) → ∀ a, copy_words src dst n m1 a = copy_words src dst n m2 a.
Proof.
  revert src dst m1 m2. induction n as [|n IH]; intros src dst m1 m2 H a; simpl; [done|].
  apply IH. intros a'. rewrite !H. done.
Qed.

(** Runs the first instruction of the code in the goal. *)
Ltac step :=
  sreg;
  lazymatch goal with
  | |- ((?i >> ?j) >> ?k) ?s = _ => rewrite (then_assoc i j k s)
  | |- (STR ?rt ?rn ?imm >> ?k) ?s = _ =>
      rewrite (then_Some (STR rt rn imm) k s _ (STR_ok rt rn imm s ltac:(side) ltac:(side)))
  | |- (LDR ?rt ?rn ?imm >> ?k) ?s = _ =>
      rewrite (then_Some (LDR rt rn imm) k s _ (LDR_ok rt rn imm s ltac:(side) ltac:(side)))
  | |- (?i >> ?k) ?s = _ =>
      rewrite (then_Some i k s _ eq_refl)
  end.


(** [store_registers] fills the fifteen slots of the TCB at [R0], leaves
    LR in [R4] and SP in [R6], and writes nowhere else. *)
Lemma store_registers_spec s :
  let t := regs s R0 in
  0 ≤ t → t + 60 ≤ 2 ^ 32 → t mod 4 = 0 →
  ∃ s', store_registers s = Some s'
    ∧ (∀ r, regs s' r = match r with R4 => regs s LR | R6 => regs s SP | _ => regs s r end)
    ∧ flag_z s' = flag_z s ∧ pc s' = pc s
    ∧ (∀ r, mem s' (t + slot r) = regs s r)
    ∧ (∀ a, (∀ r, a ≠ t + slot r) → mem s' a = mem s a).
Proof.
  intros t H0 H1 H2. subst t. destruct s as [rf z m p]. cbn [regs mem flag_z pc] in *. eexists. split.
  { unfold store_registers. do 21 step. sreg. apply STR_ok; side. }
  sreg.
  split. { intros r. destruct r; reflexivity. }
  split; [reflexivity|]. split; [reflexivity|].
  split.
  - intros r. destruct r; unfold slot; sreg; zeqb; reflexivity.
  - intros a Ha. sreg.
    pose proof (Ha R0); pose proof (Ha R1); pose proof (Ha R2); pose proof (Ha R3);
    pose proof (Ha R4); pose proof (Ha R5); pose proof (Ha R6); pose proof (Ha R7);
    pose proof (Ha R8); pose proof (Ha R9); pose proof (Ha R10); pose proof (Ha R11);
    pose proof (Ha R12); pose proof (Ha SP); pose proof (Ha LR).
    unfold slot in *. cbn [reg_index] in *. zeqb; reflexivity.
Qed.

(** One pass of a copy loop. *)
Lemma copy_pass_spec rb (out : bool) s :
  buffer_reg rb → regs s R4 mod 4 = 0 → regs s rb mod 4 = 0 →
  let src := if out then regs s R4 else regs s rb in
  let dst := if out then regs s rb else regs s R4 in
  ∃ s', copy_pass rb out s = Some s'
    ∧ regs s' R4 = wrap (regs s R4 - 4)
    ∧ regs s' rb = wrap (regs s rb - 4)
    ∧ (∀ r, r ≠ R4 → r ≠ R5 → r ≠ rb → regs s' r = regs s r)
    ∧ pc s' = pc s
    ∧ flag_z s' = Z.eqb (wrap (wrap (regs s R4 - 4) - regs s R6)) 0
    ∧ (∀ a, mem s' a = if Z.eqb a (wrap (dst - 4)) then mem s (wrap (src - 4)) else mem s a).
Proof.
  intros Hrb H4 Hb src dst. subst src dst. destruct s as [rf z m p]. cbn [regs mem flag_z pc] in *.
  destruct Hrb as [Hrb|[Hrb|Hrb]]; subst rb; destruct out; (eexists; split;
    [ unfold copy_pass; do 5 step; sreg; reflexivity
    | sreg; rewrite ?Z.add_0_r; repeat split; try reflexivity;
      intros r; destruct r; intros; try congruence; reflexivity ]).
Qed.

Lemma buffer_reg_ne rb : buffer_reg rb → rb ≠ R4 ∧ rb ≠ R5 ∧ rb ≠ R6.
Proof. intros [->|[->| ->]]; repeat split; discriminate. Qed.

(** A copy loop that needs [n + 1] passes for [R4] to meet [R6] returns
    exactly when it has fuel for them; the memory it leaves is [copy_words]. *)
Lemma copy_loop_run rb (out : bool) n s :
  buffer_reg rb →
  regs s R4 mod 4 = 0 → regs s rb mod 4 = 0 → 0 ≤ regs s R6 < 2 ^ 32 →
  (∀ k, 1 ≤ k ≤ Z.of_nat n → wrap (regs s R4 - 4 * k) ≠ regs s R6) →
  wrap (regs s R4 - 4 * (Z.of_nat n + 1)) = regs s R6 →
  let src := if out then regs s R4 else regs s rb in
  let dst := if out then regs s rb else regs s R4 in
  ∃ s', (∀ fuel, (n < fuel)%nat → copy_loop rb out fuel s = Some s')
    ∧ (∀ fuel, (fuel ≤ n)%nat → copy_loop rb out fuel s = None)
    ∧ regs s' R4 = regs s R6
    ∧ regs s' rb = wrap (regs s rb - 4 * (Z.of_nat n + 1))
    ∧ (∀ r, r ≠ R4 → r ≠ R5 → r ≠ rb → regs s' r = regs s r)
    ∧ pc s' = pc s
    ∧ (∀ a, mem s' a = copy_words src dst (S n) (mem s) a).
Proof.
  intros Hrb. destruct (buffer_reg_ne rb Hrb) as (Hrb4 & Hrb5 & Hrb6).
  revert s. induction n as [|n IH]; intros s H4 Hb He Hne Hend src dst;
    destruct (copy_pass_spec rb out s Hrb H4 Hb) as (s1 & Hp & H4' & Hb' & Hr & Hpc & Hz & Hm).
  - assert (flag_z s1 = true) as Hz1.
    { rewrite Hz. apply Z.eqb_eq. apply wrap_sub_zero; [done|].
      rewrite <- Hend. f_equal; lia. }
    exists s1. split; [|split; [|split; [|split; [|split; [|split]]]]].
    + intros [|fuel] Hf; [lia|]. simpl. rewrite (then_Some _ _ _ _ Hp).
      unfold BNE. by rewrite Hz1.
    + intros fuel Hf. assert (fuel = O) as -> by lia. done.
    + rewrite H4', <- Hend. f_equal; lia.
    + rewrite Hb'. f_equal; lia.
    + done.
    + done.
    + intros a. rewrite Hm. done.
  - assert (flag_z s1 = false) as Hz1.
    { rewrite Hz. apply Z.eqb_neq. intros Heq. apply (proj1 (wrap_sub_zero _ _ He)) in Heq.
      apply (Hne 1); [lia|]. rewrite <- Heq. f_equal; lia. }
    assert (regs s1 R6 = regs s R6) as H6 by (apply Hr; congruence).
    destruct (IH s1) as (s' & Hrun & Hshort & HR4 & HRb & HR & HPC & HM).
    + rewrite H4'. by apply wrap_aligned; Z.div_mod_to_equations; lia.
    + rewrite Hb'. by apply wrap_aligned; Z.div_mod_to_equations; lia.
    + by rewrite H6.
    + intros k Hk. rewrite H4', H6, wrap_wrap_sub.
      replace (regs s R4 - 4 - 4 * k) with (regs s R4 - 4 * (k + 1)) by lia.
      apply Hne. lia.
    + rewrite H4', H6, wrap_wrap_sub, <- Hend. f_equal; lia.
    + exists s'. split; [|split; [|split; [|split; [|split; [|split]]]]].
      * intros [|fuel] Hf; [lia|]. simpl. rewrite (then_Some _ _ _ _ Hp).
        unfold BNE. rewrite Hz1. apply Hrun. lia.
      * intros [|fuel] Hf; [done|]. simpl. rewrite (then_Some _ _ _ _ Hp).
        unfold BNE. rewrite Hz1. apply Hshort. lia.
      * by rewrite HR4.
      * rewrite HRb, Hb', wrap_wrap_sub. f_equal; lia.
      * intros r ? ? ?. rewrite HR by done. by apply Hr.
      * by rewrite HPC.
      * intros a. rewrite HM. subst src dst.
        change (copy_words (if out then regs s R4 else regs s rb)
                  (if out then regs s rb else regs s R4) (S (S n)) (mem s) a)
          with (copy_words (wrap ((if out then regs s R4 else regs s rb) - 4))
                  (wrap ((if out then regs s rb else regs s R4) - 4)) (S n)
                  (λ a, if Z.eqb a (wrap ((if out then regs s rb else regs s R4) - 4))
                        then mem s (wrap ((if out then regs s R4 else regs s rb) - 4))
                        else mem s a) a).
        rewrite H4', Hb'. destruct out; apply copy_words_ext; intros a'; apply Hm.
Qed.

(** A word that is no destination of a pass keeps its value. *)
Lemma copy_words_frame src dst n m a :
  (∀ i, 1 ≤ i ≤ Z.of_nat n → wrap (dst - 4 * i) ≠ a) →
  copy_words src dst n m a = m a.
Proof.
  revert src dst m. induction n as [|n IH]; intros src dst m H; simpl; [done|].
  rewrite IH.
  - destruct (Z.eqb_spec a (wrap (dst - 4))) as [->|]; [|done].
    exfalso. apply (H 1); [lia|]. f_equal; lia.
  - intros i Hi. rewrite wrap_wrap_sub.
    replace (dst - 4 - 4 * i) with (dst - 4 * (i + 1)) by lia. apply H. lia.
Qed.

(** The destination of pass [j] ends with the value its source had at the
    start, when no earlier pass wrote that source and no later pass writes
    that destination again. *)
Lemma copy_words_at src dst n m j :
  1 ≤ j ≤ Z.of_nat n →
  (∀ i, 1 ≤ i < j → wrap (dst - 4 * i) ≠ wrap (src - 4 * j)) →
  (∀ i, j < i ≤ Z.of_nat n → wrap (dst - 4 * i) ≠ wrap (dst - 4 * j)) →
  copy_words src dst n m (wrap (dst - 4 * j)) = m (wrap (src - 4 * j)).
Proof.
  revert src dst m j. induction n as [|n IH]; intros src dst m j Hj Hsrc Hdst; [lia|].
  simpl. destruct (decide (j = 1)) as [->|Hj1].
  - rewrite copy_words_frame.
    + replace (dst - 4 * 1) with (dst - 4) by lia.
      replace (src - 4 * 1) with (src - 4) by lia. by rewrite Z.eqb_refl.
    + intros i Hi. rewrite wrap_wrap_sub.
      replace (dst - 4 - 4 * i) with (dst - 4 * (i + 1)) by lia. apply Hdst. lia.
  - replace (wrap (dst - 4 * j)) with (wrap (wrap (dst - 4) - 4 * (j - 1)))
      by (rewrite wrap_wrap_sub; f_equal; lia).
    rewrite IH.
    + rewrite wrap_wrap_sub. replace (src - 4 - 4 * (j - 1)) with (src - 4 * j) by lia.
      destruct (Z.eqb_spec (wrap (src - 4 * j)) (wrap (dst - 4))) as [Heq|]; [|done].
      exfalso. apply (Hsrc 1); [lia|]. rewrite Heq. f_equal; lia.
    + lia.
    + intros i Hi. rewrite !wrap_wrap_sub.
      replace (dst - 4 - 4 * i) with (dst - 4 * (i + 1)) by lia.
      replace (src - 4 - 4 * (j - 1)) with (src - 4 * j) by lia. apply Hsrc. lia.
    + intros i Hi. rewrite !wrap_wrap_sub.
      replace (dst - 4 - 4 * i) with (dst - 4 * (i + 1)) by lia.
      replace (dst - 4 - 4 * (j - 1)) with (dst - 4 * j) by lia. apply Hdst. lia.
Qed.

(** Without wrap-around: [n] words below [src] are copied to the [n] words
    below [dst], and nothing else changes. *)
Lemma copy_words_valid src dst n m :
  4 * Z.of_nat n ≤ src → src ≤ 2 ^ 32 → 4 * Z.of_nat n ≤ dst → dst ≤ 2 ^ 32 →
  (dst ≤ src - 4 * Z.of_nat n ∨ src ≤ dst - 4 * Z.of_nat n) →
  (∀ k, 1 ≤ k ≤ Z.of_nat n → copy_words src dst n m (dst - 4 * k) = m (src - 4 * k))
  ∧ (∀ a, (∀ k, 1 ≤ k ≤ Z.of_nat n → a ≠ dst - 4 * k) → copy_words src dst n m a = m a).
Proof.
  intros Hs1 Hs2 Hd1 Hd2 Hdisj. split.
  - intros k Hk.
    rewrite <- (wrap_small (dst - 4 * k)) by lia.
    rewrite <- (wrap_small (src - 4 * k)) by lia.
    apply copy_words_at; [lia| |]; intros i Hi; rewrite !wrap_small by lia; lia.
  - intros a Ha. apply copy_words_frame. intros i Hi. rewrite wrap_small by lia.
    intros Heq. by apply (Ha i).
Qed.

(** *** The blocks of the two routines *)

Lemma load_stack_top_spec r s :
  r = R7 ∨ r = R5 →
  ∃ s', load_stack_top r s = Some s'
    ∧ regs s' r = STACK_TOP ∧ regs s' R4 = STACK_TOP
    ∧ (∀ r', r' ≠ r → r' ≠ R4 → regs s' r' = regs s r')
    ∧ pc s' = pc s ∧ mem s' = mem s.
Proof.
  intros Hr. destruct s as [rf z m p].
  destruct Hr as [Hr|Hr]; subst r; (eexists; split;
    [ unfold load_stack_top; do 5 step; sreg; reflexivity
    | sreg; repeat split; try reflexivity;
      intros r; destruct r; intros; try congruence; reflexivity ]).
Qed.

Lemma slot_range r : 0 ≤ slot r < 60 ∧ slot r mod 4 = 0.
Proof. destruct r; unfold slot; simpl; split; (lia || reflexivity). Qed.

Lemma STACK_TOP_aligned : STACK_TOP mod 4 = 0.
Proof. reflexivity. Qed.

(** The first half of [swap_context], and [save_context] up to its loop,
    differ in the register that points to the stack copy. *)
Lemma save_phase_spec (rt rb : reg) (loop : nat → instr) s (n fuel : nat) :
  (rt = R7 ∧ rb = R2 ∧ loop = store_stack) ∨ (rt = R5 ∧ rb = R1 ∧ loop = store_stack1) →
  let tcb := regs s R0 in
  let base := regs s rb in
  0 ≤ tcb → tcb + 60 ≤ 2 ^ 32 → tcb mod 4 = 0 →
  (1 ≤ n)%nat → regs s SP = STACK_TOP - 4 * Z.of_nat n → 0 ≤ regs s SP →
  4 * Z.of_nat n ≤ base → base < 2 ^ 32 → base mod 4 = 0 →
  (tcb + 60 ≤ base - 4 * Z.of_nat n ∨ base ≤ tcb) →
  (base ≤ STACK_TOP - 4 * Z.of_nat n ∨ STACK_TOP ≤ base - 4 * Z.of_nat n) →
  (tcb + 60 ≤ STACK_TOP - 4 * Z.of_nat n ∨ STACK_TOP ≤ tcb) →
  (n ≤ fuel)%nat →
  ∃ s', (store_registers >> load_stack_top rt >> loop fuel) s = Some s'
    ∧ (∀ r, r ≠ rb → r ≠ R4 → r ≠ R5 → r ≠ R6 → r ≠ rt → regs s' r = regs s r)
    ∧ regs s' rb = base - 4 * Z.of_nat n
    ∧ regs s' R4 = regs s SP
    ∧ regs s' R6 = regs s SP
    ∧ (rt = R7 → regs s' R7 = STACK_TOP)
    ∧ pc s' = pc s
    ∧ (∀ r, mem s' (tcb + slot r) = regs s r)
    ∧ (∀ k, 1 ≤ k ≤ Z.of_nat n → mem s' (base - 4 * k) = mem s (STACK_TOP - 4 * k))
    ∧ (∀ a, (∀ r, a ≠ tcb + slot r) → (∀ k, 1 ≤ k ≤ Z.of_nat n → a ≠ base - 4 * k) →
         mem s' a = mem s a).
Proof.
  intros Hcase tcb base Ht0 Ht1 Ht2 Hn Hsp Hsp0 Hb0 Hb1 Hb2 Dtb Dbs Dts Hfuel.
  assert (Hbr : buffer_reg rb) by (unfold buffer_reg; destruct Hcase as [(_&->&_)|(_&->&_)]; tauto).
  assert (Hrt : rt = R7 ∨ rt = R5) by tauto.
  assert (Hloop : ∀ f x, loop f x = copy_loop rb true f x).
  { destruct Hcase as [(_&->&->)|(_&->&->)]; intros f x;
      [apply store_stack_copy_loop|apply store_stack1_copy_loop]. }
  assert (Hne : rb ≠ R0 ∧ rb ≠ R4 ∧ rb ≠ R5 ∧ rb ≠ R6 ∧ rb ≠ R7 ∧ rb ≠ SP ∧ rb ≠ rt ∧ rt ≠ R4 ∧ rt ≠ R6 ∧ rt ≠ R0 ∧ rt ≠ SP).
  { destruct Hcase as [(->&->&_)|(->&->&_)]; repeat split; discriminate. }
  destruct Hne as (Hn0 & Hn4 & Hn5 & Hn6 & Hn7 & HnSP & Hnrt & Hrt4 & Hrt6 & Hrt0 & HrtSP).
  destruct (store_registers_spec s Ht0 Ht1 Ht2) as (sa & Ha & HaR & _ & HaPC & HaT & HaF).
  destruct (load_stack_top_spec rt sa Hrt) as (sb & Hb & HbT & Hb4 & HbR & HbPC & HbM).
  assert (HbRb : regs sb rb = base).
  { rewrite HbR by done. rewrite HaR. subst base. destruct Hbr as [->|[->| ->]]; done. }
  assert (Hb6 : regs sb R6 = regs s SP) by (rewrite HbR by congruence; by rewrite HaR).
  assert (STACK_TOP = 536887296) as HTOP by reflexivity.
  destruct (copy_loop_run rb true (n - 1) sb Hbr) as (s' & Hrun & _ & H4 & HRb & HR & HPC & HM).
  { rewrite Hb4. apply STACK_TOP_aligned. }
  { by rewrite HbRb. }
  { rewrite Hb6. lia. }
  { intros k Hk. rewrite Hb4, Hb6, wrap_small by lia. lia. }
  { rewrite Hb4, Hb6, wrap_small by lia. lia. }
  cbv zeta in HM. replace (S (n - 1)) with n in HM by lia.
  rewrite Hb4, HbRb, HbM in HM.
  destruct (copy_words_valid STACK_TOP base n (mem sa)) as [Hcopy Hframe]; [lia..|].
  exists s'. split.
  { rewrite (then_Some _ _ _ _ Ha), (then_Some _ _ _ _ Hb), Hloop. apply Hrun. lia. }
  split.
  { intros r ? ? ? ? ?. rewrite HR by done. rewrite HbR by done. rewrite HaR.
    destruct r; done. }
  split. { rewrite HRb, HbRb, wrap_small by lia. f_equal. lia. }
  split. { by rewrite H4, Hb6. }
  split. { rewrite HR by congruence. done. }
  split. { intros ->. rewrite HR by congruence. done. }
  split. { by rewrite HPC, HbPC, HaPC. }
  split.
  { intros r. rewrite HM, Hframe.
    - apply HaT.
    - intros k Hk. fold tcb. pose proof (slot_range r). lia. }
  split.
  { intros k Hk. rewrite HM, Hcopy by done. apply HaF. fold tcb.
    intros r. pose proof (slot_range r). lia. }
  intros a Ha1 Ha2. rewrite HM, Hframe by done. by apply HaF.
Qed.

(** The blocks of the second half of [swap_context] and the end of
    [save_context]. *)
Lemma load_stack_registers_spec s :
  let tcb := regs s R1 in
  0 ≤ tcb → tcb + 60 ≤ 2 ^ 32 → tcb mod 4 = 0 →
  ∃ s', load_stack_registers s = Some s'
    ∧ regs s' R4 = regs s R7 ∧ regs s' R6 = mem s (tcb + 52)
    ∧ regs s' SP = mem s (tcb + 52) ∧ regs s' LR = mem s (tcb + 56)
    ∧ regs s' R1 = tcb ∧ regs s' R3 = regs s R3
    ∧ mem s' = mem s.
Proof.
  intros tcb Ht0 Ht1 Ht2. subst tcb. destruct s as [rf z m p]. cbn [regs mem flag_z pc] in *.
  eexists. split; [unfold load_stack_registers; do 4 step; sreg; reflexivity|]. sreg. done.
Qed.

Lemma load_registers_spec s :
  let tcb := regs s R1 in
  0 ≤ tcb → tcb + 60 ≤ 2 ^ 32 → tcb mod 4 = 0 →
  ∃ s', load_registers s = Some s'
    ∧ (∀ r, regs s' r = match r with
                        | SP => regs s SP
                        | LR => regs s LR
                        | _ => mem s (tcb + slot r)
                        end)
    ∧ pc s' = regs s LR ∧ mem s' = mem s.
Proof.
  intros tcb Ht0 Ht1 Ht2. subst tcb. destruct s as [rf z m p]. cbn [regs mem flag_z pc] in *.
  eexists. split; [unfold load_registers; do 18 step; sreg; reflexivity|]. sreg.
  split; [|done]. intros r. destruct r; unfold slot; sreg; rewrite ?Z.add_0_r; reflexivity.
Qed.

Lemma restore_scratch_spec s :
  let tcb := regs s R0 in
  0 ≤ tcb → tcb + 60 ≤ 2 ^ 32 → tcb mod 4 = 0 →
  ∃ s', restore_scratch s = Some s'
    ∧ (∀ r, regs s' r = match r with
                        | R4 | R5 | R6 | R7 => mem s (tcb + slot r)
                        | _ => regs s r
                        end)
    ∧ pc s' = regs s LR ∧ mem s' = mem s.
Proof.
  intros tcb Ht0 Ht1 Ht2. subst tcb. destruct s as [rf z m p]. cbn [regs mem flag_z pc] in *.
  eexists. split; [unfold restore_scratch; do 4 step; sreg; reflexivity|]. sreg.
  split; [|done]. intros r. destruct r; unfold slot; sreg; reflexivity.
Qed.

(** The second half of [swap_context]: every register comes from the TCB
    at [R1], control passes to the saved LR, and the [n] words of the stack
    copy at [R3] are back under [STACK_TOP]. *)
Lemma swap_context_in_spec s (n fuel : nat) :
  let tcb := regs s R1 in
  let base := regs s R3 in
  regs s R7 = STACK_TOP →
  0 ≤ tcb → tcb + 60 ≤ 2 ^ 32 → tcb mod 4 = 0 →
  (1 ≤ n)%nat → mem s (tcb + 52) = STACK_TOP - 4 * Z.of_nat n → 0 ≤ mem s (tcb + 52) →
  4 * Z.of_nat n ≤ base → base < 2 ^ 32 → base mod 4 = 0 →
  (base ≤ STACK_TOP - 4 * Z.of_nat n ∨ STACK_TOP ≤ base - 4 * Z.of_nat n) →
  (tcb + 60 ≤ STACK_TOP - 4 * Z.of_nat n ∨ STACK_TOP ≤ tcb) →
  (n ≤ fuel)%nat →
  ∃ s', swap_context_in fuel s = Some s'
    ∧ (∀ r, regs s' r = mem s (tcb + slot r))
    ∧ pc s' = mem s (tcb + 56)
    ∧ (∀ k, 1 ≤ k ≤ Z.of_nat n → mem s' (STACK_TOP - 4 * k) = mem s (base - 4 * k))
    ∧ (∀ a, (∀ k, 1 ≤ k ≤ Z.of_nat n → a ≠ STACK_TOP - 4 * k) → mem s' a = mem s a).
Proof.
  intros tcb base H7 Ht0 Ht1 Ht2 Hn Hsp Hsp0 Hb0 Hb1 Hb2 Dbs Dts Hfuel.
  assert (STACK_TOP = 536887296) as HTOP by reflexivity.
  destruct (load_stack_registers_spec s Ht0 Ht1 Ht2)
    as (sa & Ha & Ha4 & Ha6 & HaSP & HaLR & Ha1 & Ha3 & HaM).
  fold tcb in Ha6, HaSP, HaLR, Ha1. fold base in Ha3. rewrite H7 in Ha4.
  destruct (copy_loop_run R3 false (n - 1) sa) as (sb & Hrun & _ & H4 & HR3 & HR & HPC & HM).
  { unfold buffer_reg. tauto. }
  { rewrite Ha4. apply STACK_TOP_aligned. }
  { by rewrite Ha3. }
  { rewrite Ha6. lia. }
  { intros k Hk. rewrite Ha4, Ha6, wrap_small by lia. lia. }
  { rewrite Ha4, Ha6, wrap_small by lia. lia. }
  cbv zeta in HM. replace (S (n - 1)) with n in HM by lia.
  rewrite Ha4, Ha3, HaM in HM.
  destruct (copy_words_valid base STACK_TOP n (mem s)) as [Hcopy Hframe]; [lia..|].
  assert (Hb1' : regs sb R1 = tcb) by (rewrite HR by congruence; done).
  assert (HbSP : regs sb SP = mem s (tcb + 52)) by (rewrite HR by congruence; done).
  assert (HbLR : regs sb LR = mem s (tcb + 56)) by (rewrite HR by congruence; done).
  assert (Htcb : ∀ r, mem sb (tcb + slot r) = mem s (tcb + slot r)).
  { intros r. rewrite HM, Hframe; [done|]. intros k Hk. pose proof (slot_range r). lia. }
  destruct (load_registers_spec sb) as (s' & Hs' & HR' & HPC' & HM'); [rewrite Hb1'; done..|].
  rewrite Hb1' in HR'.
  exists s'. split.
  { unfold swap_context_in. rewrite (then_Some _ _ _ _ Ha).
    rewrite (then_Some _ _ _ sb); [done|].
    rewrite restore_stack_copy_loop. apply Hrun. lia. }
  split.
  { intros r. rewrite HR'. destruct r; try apply Htcb; [by rewrite HbSP|by rewrite HbLR]. }
  split. { by rewrite HPC', HbLR. }
  split. { intros k Hk. rewrite HM', HM. by apply Hcopy. }
  intros a Ha'. rewrite HM', HM. by apply Hframe.
Qed.


(** *** The round trip *)

(** Arithmetic from up to three facts of the form [apart _ _ _ _]. *)
Ltac using_apart H1 H2 H3 :=
  let X1 := fresh in let X2 := fresh in let X3 := fresh in
  pose proof H1 as X1; pose proof H2 as X2; pose proof H3 as X3;
  unfold apart in X1, X2, X3; lia.

(** C2, for a stack of at least one word. Fibers A and B have context
    stores that meet neither each other nor the top [cap] words of the
    system stack. A runs with [nA] words on the stack, between one and
    [cap], and calls [swap_context(A, B)], where B's TCB holds a stack
    pointer of the same kind. The call returns into B with B's registers.
    Whatever B does then, as long as A's TCB and the [nA] words of A's stack
    copy stay as the call left them, a later [swap_context(B, A)] returns
    into A with all fifteen registers (R0 to R12, SP, LR) as they were
    before the first call, at the return address of the first call, and with
    the [nA] words of A's stack as they were. *)
Theorem swap_context_round_trip (cap : Z) (A B : context) (s0 : cpu) (nA nB fuel : nat) :
  context_ok cap A → context_ok cap B → contexts_apart cap A B →
  regs s0 R0 = tcb A → regs s0 R1 = tcb B →
  regs s0 R2 = stack_base A → regs s0 R3 = stack_base B →
  regs s0 SP = STACK_TOP - 4 * Z.of_nat nA → 1 ≤ Z.of_nat nA ≤ cap →
  mem s0 (tcb B + 52) = STACK_TOP - 4 * Z.of_nat nB → 1 ≤ Z.of_nat nB ≤ cap →
  cap ≤ Z.of_nat fuel →
  ∃ s1, swap_context fuel s0 = Some s1
    ∧ (∀ r, regs s1 r = mem s0 (tcb B + slot r))
    ∧ pc s1 = mem s0 (tcb B + 56)
    ∧ ∀ s2 (nB' : nat),
        regs s2 R0 = tcb B → regs s2 R1 = tcb A →
        regs s2 R2 = stack_base B → regs s2 R3 = stack_base A →
        regs s2 SP = STACK_TOP - 4 * Z.of_nat nB' → 1 ≤ Z.of_nat nB' ≤ cap →
        (∀ r, mem s2 (tcb A + slot r) = mem s1 (tcb A + slot r)) →
        (∀ k, 1 ≤ k ≤ Z.of_nat nA →
              mem s2 (stack_base A - 4 * k) = mem s1 (stack_base A - 4 * k)) →
        ∃ s3, swap_context fuel s2 = Some s3
          ∧ (∀ r, regs s3 r = regs s0 r)
          ∧ pc s3 = regs s0 LR
          ∧ (∀ k, 1 ≤ k ≤ Z.of_nat nA →
                  mem s3 (STACK_TOP - 4 * k) = mem s0 (STACK_TOP - 4 * k)).
Proof.
  intros (At0 & At1 & At2 & Ab0 & Ab1 & Ab2 & Hcap & Atb & Ats & Abs)
         (Bt0 & Bt1 & Bt2 & Bb0 & Bb1 & Bb2 & _ & Btb & Bts & Bbs)
         (Dtt & Dtb & Dbt & Dbb)
         H0 H1 H2 H3 HSP HnA HSPB HnB Hfuel.
  assert (STACK_TOP = 536887296) as HTOP by reflexivity.
  (* first switch, A goes out *)
  destruct (save_phase_spec R7 R2 store_stack s0 nA fuel)
    as (sm & Hsm & HmR & _ & _ & _ & Hm7 & _ & HmT & HmS & HmF);
    [tauto|rewrite ?H0, ?H2; first [assumption | using_apart Atb Abs Ats]..|].
  rewrite H0 in HmT, HmF. rewrite H2 in HmS, HmF.
  (* B comes in *)
  assert (HmB : ∀ r, mem sm (tcb B + slot r) = mem s0 (tcb B + slot r)).
  { intros r. pose proof (slot_range r). apply HmF.
    - intros r'. pose proof (slot_range r'). using_apart Dtt Dtt Dtt.
    - intros k Hk. using_apart Dbt Dbt Dbt. }
  pose proof (HmB SP) as HmB52. change (slot SP) with 52 in HmB52.
  pose proof (HmB LR) as HmB56. change (slot LR) with 56 in HmB56.
  destruct (swap_context_in_spec sm nB fuel) as (s1 & Hs1 & H1R & H1PC & _ & H1F);
    [by apply Hm7
    |rewrite ?(HmR R1), ?(HmR R3), ?H1, ?H3, ?HmB52 by discriminate;
     first [assumption | using_apart Bbs Bts Bts]..|].
  rewrite (HmR R1), H1 in H1R, H1PC by discriminate.
  exists s1. split.
  { unfold swap_context. by rewrite (then_Some _ _ _ _ Hsm). }
  split. { intros r. by rewrite H1R, HmB. }
  split. { by rewrite H1PC, HmB56. }
  intros s2 nB' G0 G1 G2 G3 GSP GnB GT GS.
  (* second switch, B goes out *)
  destruct (save_phase_spec R7 R2 store_stack s2 nB' fuel)
    as (sn & Hsn & HnR & _ & _ & _ & Hn7 & _ & _ & _ & HnF);
    [tauto|rewrite ?G0, ?G2; first [assumption | using_apart Btb Bbs Bts]..|].
  rewrite G0, G2 in HnF.
  assert (HnT : ∀ r, mem sn (tcb A + slot r) = regs s0 r).
  { intros r. pose proof (slot_range r). rewrite HnF, GT, H1F; [apply HmT| | |].
    - intros k Hk. using_apart Ats Ats Ats.
    - intros r'. pose proof (slot_range r'). using_apart Dtt Dtt Dtt.
    - intros k Hk. using_apart Dtb Dtb Dtb. }
  assert (HnS : ∀ k, 1 ≤ k ≤ Z.of_nat nA →
                     mem sn (stack_base A - 4 * k) = mem s0 (STACK_TOP - 4 * k)).
  { intros k Hk. rewrite HnF, GS, H1F; [by apply HmS| |assumption| |].
    - intros k' Hk'. using_apart Abs Abs Abs.
    - intros r'. pose proof (slot_range r'). using_apart Dbt Dbt Dbt.
    - intros k' Hk'. using_apart Dbb Dbb Dbb. }
  (* A comes back in *)
  pose proof (HnT SP) as HnT52. change (slot SP) with 52 in HnT52.
  destruct (swap_context_in_spec sn nA fuel) as (s3 & Hs3 & H3R & H3PC & H3S & _);
    [by apply Hn7
    |rewrite ?(HnR R1), ?(HnR R3), ?G1, ?G3, ?HnT52, ?HSP by discriminate;
     first [assumption | reflexivity | using_apart Abs Ats Ats]..|].
  rewrite (HnR R1), G1 in H3R, H3PC by discriminate.
  rewrite (HnR R3), G3 in H3S by discriminate.
  exists s3. split.
  { unfold swap_context. by rewrite (then_Some _ _ _ _ Hsn). }
  split. { intros r. by rewrite H3R. }
  split. { rewrite H3PC. apply (HnT LR). }
  intros k Hk. rewrite H3S by done. by apply HnS.
Qed.

Lemma swap_context_round_trip_witness :
  (context_ok 8 ctxA ∧ context_ok 8 ctxB ∧ contexts_apart 8 ctxA ctxB)
  ∧ (regs two_word_state SP = STACK_TOP - 4 * 2
     ∧ mem two_word_state (tcb ctxB + 52) = STACK_TOP - 4 * 1)
  ∧ ∃ s1 s3, swap_context 8 two_word_state = Some s1
      ∧ swap_context 8 (call_swap ctxB ctxA s1) = Some s3
      ∧ (∀ r, regs s3 r = regs two_word_state r)
      ∧ pc s3 = 0x1234
      ∧ mem s3 (STACK_TOP - 4) = 11 ∧ mem s3 (STACK_TOP - 8) = 22.
Proof.
  assert (HA : context_ok 8 ctxA).
  { unfold context_ok, apart. cbn [tcb stack_base ctxA]. change STACK_TOP with 536887296.
    repeat split; first [reflexivity | lia]. }
  assert (HB : context_ok 8 ctxB).
  { unfold context_ok, apart. cbn [tcb stack_base ctxB]. change STACK_TOP with 536887296.
    repeat split; first [reflexivity | lia]. }
  assert (HAB : contexts_apart 8 ctxA ctxB).
  { unfold contexts_apart, apart. cbn [tcb stack_base ctxA ctxB]. repeat split; lia. }
  split; [tauto|]. split; [split; reflexivity|].
  destruct (swap_context_round_trip 8 ctxA ctxB two_word_state 2 1 8 HA HB HAB
              eq_refl eq_refl eq_refl eq_refl eq_refl ltac:(lia) eq_refl ltac:(lia) ltac:(lia))
    as (s1 & Hs1 & HR1 & _ & Hback).
  destruct (Hback (call_swap ctxB ctxA s1) 1%nat eq_refl eq_refl eq_refl eq_refl)
    as (s3 & Hs3 & HR3 & HPC3 & HM3).
  - cbn [call_swap set_reg regs reg_eqb reg_index Nat.eqb]. rewrite HR1. reflexivity.
  - lia.
  - reflexivity.
  - reflexivity.
  - exists s1, s3. split; [exact Hs1|]. split; [exact Hs3|]. split; [exact HR3|].
    split; [exact HPC3|]. split.
    + exact (HM3 1 ltac:(lia)).
    + exact (HM3 2 ltac:(lia)).
Defined.

(** *** [save_context] *)

Lemma then_assoc3 (i j k l : instr) s :
  (i >> j >> k >> l) s = ((i >> j >> k) >> l) s.
Proof.
  unfold then_. destruct (i s) as [s1|]; simpl; [|done].
  destruct (j s1) as [s2|]; simpl; done.
Qed.

(** An address is a word of the stack copy, or it is none of them. *)
Lemma buffer_address_cases (base : Z) (n : nat) (a : Z) :
  (∃ k, 1 ≤ k ≤ Z.of_nat n ∧ a = base - 4 * k)
  ∨ (∀ k, 1 ≤ k ≤ Z.of_nat n → a ≠ base - 4 * k).
Proof.
  destruct (decide ((base - a) mod 4 = 0 ∧ 1 ≤ (base - a) / 4 ≤ Z.of_nat n)) as [[H1 H2]|H].
  - left. exists ((base - a) / 4). split; [done|]. Z.div_mod_to_equations. lia.
  - right. intros k Hk ->. apply H. replace (base - (base - 4 * k)) with (k * 4) by lia.
    rewrite Z.mod_mul, Z.div_mul by lia. lia.
Qed.




(** *** [swap_context] on an empty stack *)

Lemma swap_context_split fuel s s' :
  swap_context_out fuel s = Some s' → swap_context fuel s = swap_context_in fuel s'.
Proof. intros H. unfold swap_context. by rewrite (then_Some _ _ _ _ H). Qed.

(** The first half of [swap_context] on the empty stack: the copy loop
    passes through the whole address space before [R4] meets [R6], and
    what it leaves in the two TCBs comes from 0x2000 bytes further up. *)
Lemma empty_stack_out :
  ∃ sm, (∀ fuel, Z.of_nat fuel < 1073741824 → swap_context_out fuel empty_stack_state = None)
    ∧ (∀ fuel, 1073741824 ≤ Z.of_nat fuel →
               swap_context_out fuel empty_stack_state = Some sm)
    ∧ regs sm R1 = tcb ctxB ∧ regs sm R3 = stack_base ctxB ∧ regs sm R7 = STACK_TOP
    ∧ mem sm (tcb ctxA + 52) = STACK_TOP - 4
    ∧ mem sm (tcb ctxB + 52) = STACK_TOP - 4.
Proof.
  assert (STACK_TOP = 536887296) as HTOP by reflexivity.
  destruct (store_registers_spec empty_stack_state) as (sa & Ha & HaR & _ & _ & _ & HaF);
    [simpl; lia..|reflexivity|].
  destruct (load_stack_top_spec R7 sa) as (sb & Hb & Hb7 & Hb4 & HbR & _ & HbM); [tauto|].
  assert (Hb2 : regs sb R2 = stack_base ctxA) by (rewrite HbR, HaR by discriminate; done).
  assert (Hb6 : regs sb R6 = STACK_TOP) by (rewrite HbR, HaR by discriminate; done).
  set (n := Z.to_nat 1073741823).
  assert (Hn : Z.of_nat n = 1073741823) by (apply Z2Nat.id; lia).
  clearbody n.
  destruct (copy_loop_run R2 true n sb) as (sm & Hrun & Hshort & _ & _ & HR & _ & HM).
  { unfold buffer_reg. tauto. }
  { rewrite Hb4. reflexivity. }
  { rewrite Hb2. reflexivity. }
  { rewrite Hb6. lia. }
  { intros k Hk. rewrite Hb4, Hb6, HTOP. unfold wrap. Z.div_mod_to_equations. lia. }
  { rewrite Hb4, Hb6, HTOP, Hn. reflexivity. }
  cbv zeta in HM. rewrite Hb4, Hb2, HbM in HM.
  assert (Hout : ∀ fuel, swap_context_out fuel empty_stack_state = copy_loop R2 true fuel sb).
  { intros fuel. unfold swap_context_out.
    rewrite (then_Some _ _ _ _ Ha), (then_Some _ _ _ _ Hb). apply store_stack_copy_loop. }
  assert (Hword : ∀ j, 1 ≤ j ≤ 2048 →
            mem sm (stack_base ctxA - 4 * j) = mem sa (STACK_TOP - 4 * j)).
  { intros j Hj. rewrite HM.
    rewrite <- (wrap_small (stack_base ctxA - 4 * j)) by (simpl; lia).
    rewrite <- (wrap_small (STACK_TOP - 4 * j)) by lia.
    apply copy_words_at.
    - lia.
    - intros i Hi. unfold wrap. simpl stack_base. rewrite HTOP. Z.div_mod_to_equations. lia.
    - intros i Hi. unfold wrap. simpl stack_base. Z.div_mod_to_equations. lia. }
  exists sm. split; [|split; [|split; [|split; [|split; [|split]]]]].
  - intros fuel Hf. rewrite Hout. apply Hshort. lia.
  - intros fuel Hf. rewrite Hout. apply Hrun. lia.
  - rewrite HR, HbR, HaR by discriminate. done.
  - rewrite HR, HbR, HaR by discriminate. done.
  - rewrite HR by discriminate. done.
  - replace (tcb ctxA + 52) with (stack_base ctxA - 4 * 1011) by reflexivity.
    rewrite Hword by lia. rewrite HaF; [reflexivity|].
    intros r. pose proof (slot_range r). simpl. lia.
  - replace (tcb ctxB + 52) with (stack_base ctxA - 4 * 947) by reflexivity.
    rewrite Hword by lia. rewrite HaF; [reflexivity|].
    intros r. pose proof (slot_range r). simpl. lia.
Qed.

Lemma swap_context_stops fuel s :
  swap_context_out fuel s = None → swap_context fuel s = None.
Proof. intros H. unfold swap_context, then_. by rewrite H. Qed.

Lemma swap_context_no_fuel s : swap_context 0 s = None.
Proof.
  unfold swap_context, swap_context_out, then_.
  destruct (store_registers s) as [s1|]; simpl; [|done].
  destruct (load_stack_top R7 s1) as [s2|]; simpl; done.
Qed.

(** The registers at a call [swap_context(out, in)]. *)
Lemma regs_call_swap out inc s r :
  regs (call_swap out inc s) r
  = match r with
    | R0 => tcb out | R1 => tcb inc | R2 => stack_base out | R3 => stack_base inc
    | _ => regs s r
    end.
Proof. destruct r; reflexivity. Qed.

(** C2 fails when nothing is on the stack. Contexts and registers are as the
    round trip asks, but SP is at [STACK_TOP]. The copy loop tests after the
    first pass, so [R4] leaves [R6] at once and walks through the whole
    address space: no call returns with fuel for fewer than 2^30 passes. A
    call that does return has overwritten both TCBs, and the call
    [swap_context(B, A)] made from its result returns with SP one word below
    [STACK_TOP], not at [STACK_TOP] where A had it. *)
Lemma swap_context_empty_stack :
  (context_ok 8 ctxA ∧ context_ok 8 ctxB ∧ contexts_apart 8 ctxA ctxB)
  ∧ (regs empty_stack_state R0 = tcb ctxA ∧ regs empty_stack_state R1 = tcb ctxB
     ∧ regs empty_stack_state R2 = stack_base ctxA
     ∧ regs empty_stack_state R3 = stack_base ctxB
     ∧ regs empty_stack_state SP = STACK_TOP
     ∧ mem empty_stack_state (tcb ctxB + 52) = STACK_TOP - 4 * 1)
  ∧ (∀ fuel, Z.of_nat fuel < 2 ^ 30 → swap_context fuel empty_stack_state = None)
  ∧ (∃ fuel s1 s3, swap_context fuel empty_stack_state = Some s1
                   ∧ swap_context fuel (call_swap ctxB ctxA s1) = Some s3)
  ∧ (∀ fuel s1 fuel' s3,
       swap_context fuel empty_stack_state = Some s1 →
       swap_context fuel' (call_swap ctxB ctxA s1) = Some s3 →
       regs s3 SP = STACK_TOP - 4).
Proof.
  assert (STACK_TOP = 536887296) as HTOP by reflexivity.
  change (2 ^ 30) with 1073741824.
  destruct empty_stack_out as (sm & Hnone & Hsome & H1 & H3 & H7 & HmA & HmB).
  (* B comes in, from the TCB the loop has overwritten *)
  assert (Hin : ∀ fuel, (1 ≤ fuel)%nat →
            ∃ s1, swap_context_in fuel sm = Some s1
              ∧ regs s1 SP = STACK_TOP - 4 ∧ mem s1 (tcb ctxA + 52) = STACK_TOP - 4).
  { intros fuel Hf.
    destruct (swap_context_in_spec sm 1 fuel) as (s1 & Hs1 & HR & _ & _ & HF);
      [rewrite ?H1, ?H3, ?HmB; cbn [tcb stack_base ctxA ctxB]; first [assumption | reflexivity | lia]..|].
    exists s1. split; [done|]. split.
    - rewrite HR, H1. exact HmB.
    - rewrite HF; [exact HmA|]. intros k Hk. simpl. lia. }
  (* the second switch, back to A *)
  assert (Hback : ∀ s1 fuel', (1 ≤ fuel')%nat →
            regs s1 SP = STACK_TOP - 4 → mem s1 (tcb ctxA + 52) = STACK_TOP - 4 →
            ∃ s3, swap_context fuel' (call_swap ctxB ctxA s1) = Some s3
              ∧ regs s3 SP = STACK_TOP - 4).
  { intros s1 fuel' Hf HSP HA.
    destruct (save_phase_spec R7 R2 store_stack (call_swap ctxB ctxA s1) 1 fuel')
      as (sn & Hsn & HnR & _ & _ & _ & Hn7 & _ & _ & _ & HnF);
      [tauto|rewrite ?regs_call_swap, ?HSP; cbn [tcb stack_base ctxA ctxB]; first [assumption | reflexivity | lia]..|].
    rewrite !regs_call_swap in HnF.
    assert (HnA : mem sn (tcb ctxA + 52) = STACK_TOP - 4).
    { rewrite HnF; [exact HA| |].
      - intros r. pose proof (slot_range r). simpl. lia.
      - intros k Hk. simpl. lia. }
    destruct (swap_context_in_spec sn 1 fuel') as (s3 & Hs3 & HR & _);
      [by apply Hn7
      |rewrite ?(HnR R1), ?(HnR R3), ?regs_call_swap, ?HnA by discriminate;
       cbn [tcb stack_base ctxA ctxB]; first [assumption | reflexivity | lia]..|].
    exists s3. split.
    - by rewrite (swap_context_split _ _ _ Hsn).
    - rewrite HR, (HnR R1), regs_call_swap by discriminate. exact HnA. }
  split; [|split; [|split; [|split]]].
  - unfold context_ok, contexts_apart, apart. simpl. rewrite HTOP.
    repeat split; first [lia | reflexivity].
  - repeat split.
  - intros fuel Hf. apply swap_context_stops. by apply Hnone.
  - set (fuel := Z.to_nat 1073741824).
    assert (Hfuel : Z.of_nat fuel = 1073741824) by (apply Z2Nat.id; lia).
    clearbody fuel.
    destruct (Hin fuel) as (s1 & Hs1 & HSP & HA); [lia|].
    destruct (Hback s1 fuel) as (s3 & Hs3 & _); [lia|exact HSP|exact HA|].
    exists fuel, s1, s3. split; [|done].
    rewrite (swap_context_split _ _ sm); [done|]. apply Hsome. lia.
  - intros fuel s1 fuel' s3 Hs1 Hs3.
    destruct (Z_lt_le_dec (Z.of_nat fuel) 1073741824) as [Hlt|Hge].
    { rewrite (swap_context_stops _ _ (Hnone fuel Hlt)) in Hs1. discriminate Hs1. }
    rewrite (swap_context_split _ _ sm) in Hs1 by (apply Hsome; lia).
    destruct (Hin fuel) as (s1' & Hs1' & HSP & HA); [lia|].
    rewrite Hs1' in Hs1. injection Hs1 as Heq. subst s1'.
    destruct fuel' as [|fuel']; [by rewrite swap_context_no_fuel in Hs3|].
    destruct (Hback s1 (S fuel')) as (s3' & Hs3' & HSP3); [lia|exact HSP|exact HA|].
    rewrite Hs3' in Hs3. injection Hs3 as <-. exact HSP3.
Qed.
